(** * Codespace connection and remote invocation: a shallow embedding

    The development follows [internal/codespaces/codespaces.go]
    ([connectionReady], [ConnectToLiveshare], [ListenTCP]) and the test file of
    the [rpc] package that exercises the invoker ([StartSSHServer],
    [StartJupyterServer], [RebuildContainer], [CreateInvoker]).

    Go values are embedded as follows: [string] is [String.string],
    [time.Duration] and instants are [Z] (read as milliseconds), an
    [error] is a value of the inductive type [error] below with [nil] as
    [None], and the collaborators that the Go code reaches through interfaces
    (the API client, the progress indicator, the Live Share connector, the
    operating system's TCP stack) are records of functions or section
    variables whose calls are recorded in a trace. *)

From Stdlib Require Import String Ascii List ZArith Lia Bool.
From Stdlib Require Import Decimal DecimalString DecimalZ DecimalPos.
Import ListNotations.

Local Open Scope string_scope.
Local Open Scope Z_scope.

(** ** Errors *)

Module Errors.

(** The error values that the code builds or passes on.
    - [errorString s] is [errors.New(s)] and [fmt.Errorf] without [%w];
    - [wrapError p e] is [fmt.Errorf(p ++ "%w", e)]: the prefix [p] followed by
      the text of [e], with [e] kept for [errors.Unwrap];
    - [PermanentError e] is [backoff.Permanent(e)];
    - [Canceled] and [DeadlineExceeded] are the two values of [ctx.Err()]. *)
Inductive error : Type :=
| errorString (s : string)
| wrapError (prefix : string) (err : error)
| PermanentError (err : error)
| Canceled
| DeadlineExceeded.

(** [err.Error()] *)
Fixpoint Error (e : error) : string :=
  match e with
  | errorString s => s
  | wrapError p e' => p ++ Error e'
  | PermanentError e' => Error e'
  | Canceled => "context canceled"
  | DeadlineExceeded => "context deadline exceeded"
  end.

(** [errors.Unwrap(err)] *)
Definition Unwrap (e : error) : option error :=
  match e with
  | wrapError _ e' => Some e'
  | PermanentError e' => Some e'
  | _ => None
  end.

(** [errors.As(err, &permanent)] for [*backoff.PermanentError]: the first
    permanent error on the unwrap chain, if any; the result is its [Err]. *)
Fixpoint asPermanent (e : error) : option error :=
  match e with
  | PermanentError e' => Some e'
  | wrapError _ e' => asPermanent e'
  | _ => None
  end.

(** [fmt.Errorf(p ++ "%w", err)] *)
Definition Errorf_w (p : string) (err : error) : error := wrapError p err.

(** [fmt.Errorf(p ++ "%s", s)] *)
Definition Errorf_s (p : string) (s : string) : error := errorString (p ++ s).

End Errors.
Export Errors.

(** ** The codespace record *)

Module Api.

(** [api.CodespaceConnection] *)
Record CodespaceConnection : Type := {
  SessionID : string;
  SessionToken : string;
  RelayEndpoint : string;
  RelaySAS : string;
  HostPublicKeys : list string
}.

(** [api.Codespace], restricted to the fields that the code reads. *)
Record Codespace : Type := {
  Name : string;
  State : string;
  Connection : CodespaceConnection
}.

(** Modelled from the spec: the constant [api.CodespaceStateAvailable] is
    declared in the package [internal/codespaces/api], which is not among the
    sources; the spec names the state [Available]. *)
Definition CodespaceStateAvailable : string := "Available".

End Api.
Export Api.

(** The test of a string against the empty string, Go's [s != emptystring]. *)
Definition nonEmpty (s : string) : bool := negb (s =? EmptyString)%string.

(** [connectionReady] *)
Definition connectionReady (codespace : Codespace) : bool :=
  nonEmpty (SessionID (Connection codespace)) &&
  nonEmpty (SessionToken (Connection codespace)) &&
  nonEmpty (RelayEndpoint (Connection codespace)) &&
  nonEmpty (RelaySAS (Connection codespace)) &&
  (State codespace =? CodespaceStateAvailable)%string.

(** ** Contexts *)

Module Ctx.

(** A [context.Context] as the code observes it: the instant at which its
    [Done] channel is closed, if ever, and the value [Err] has from then on.
    Once a context is done it stays done. *)
Record Context : Type := {
  doneAt : option Z;
  cause : error
}.

(** [context.Background()] *)
Definition Background : Context := {| doneAt := None; cause := Canceled |}.

(** A context whose [cancel] function is called at instant [t]. *)
Definition CancelledAt (t : Z) : Context :=
  {| doneAt := Some t; cause := Canceled |}.

(** [ctx.Err()] read at instant [now] *)
Definition ctxErr (ctx : Context) (now : Z) : option error :=
  match doneAt ctx with
  | Some t => if t <=? now then Some (cause ctx) else None
  | None => None
  end.

(** Whether a receive from [ctx.Done()] succeeds at instant [now]. *)
Definition ctxDone (ctx : Context) (now : Z) : bool :=
  match ctxErr ctx now with
  | Some _ => true
  | None => false
  end.

End Ctx.
Export Ctx.

(** ** The collaborators and the world they live in *)

(** [liveshare.Options], as [ConnectToLiveshare] fills it. *)
Record Options (logger : Type) : Type := {
  optSessionID : string;
  optSessionToken : string;
  optRelaySAS : string;
  optRelayEndpoint : string;
  optHostPublicKeys : list string;
  optLogger : logger
}.
Arguments optSessionID {logger} _.
Arguments optSessionToken {logger} _.
Arguments optRelaySAS {logger} _.
Arguments optRelayEndpoint {logger} _.
Arguments optHostPublicKeys {logger} _.
Arguments optLogger {logger} _.

(** What the collaborators see, in order. *)
Inductive Event (logger : Type) : Type :=
| StartProgressIndicatorWithLabel (s : string)
| StopProgressIndicator
| CallStartCodespace (name : string)
| CallGetCodespace (name : string) (includeConnection : bool)
| CallConnect (opts : Options logger).
Arguments StartProgressIndicatorWithLabel {logger} s.
Arguments StopProgressIndicator {logger}.
Arguments CallStartCodespace {logger} name.
Arguments CallGetCodespace {logger} name includeConnection.
Arguments CallConnect {logger} opts.

(** Whether an event is a round trip to the API client. *)
Definition isApiCall {logger : Type} (e : Event logger) : bool :=
  match e with
  | CallStartCodespace _ | CallGetCodespace _ _ => true
  | _ => false
  end.

(** The state that the calls thread: the clock, the state of the API client
    and the trace of the calls made so far (oldest first). *)
Record World (S logger : Type) : Type := {
  now : Z;
  client : S;
  trace : list (Event logger)
}.
Arguments now {S logger} _.
Arguments client {S logger} _.
Arguments trace {S logger} _.

(** The interface [apiClient]. A call is given the client's state, the
    context and the instant of the call, and answers with its Go result, the
    time it took and the client's next state. *)
Record apiClient (S : Type) : Type := {
  GetCodespace : S -> Context -> Z -> string -> bool -> (Codespace + error) * Z * S;
  StartCodespace : S -> Context -> Z -> string -> option error * Z * S
}.
Arguments GetCodespace {S} _.
Arguments StartCodespace {S} _.

(** ** The retry policy of the package [backoff] *)

Module Backoff.

(** [backoff.Stop] *)
Definition Stop : Z := -1.

(** The [ExponentialBackOff] that [ConnectToLiveshare] configures is driven
    by the system clock, a random source and floating-point arithmetic; here
    it is the list of the answers its [NextBackOff] gives in a run, in order.
    With [MaxElapsedTime] set (five minutes in the code) the policy ends up
    answering [Stop]: when the list is used up, every further answer is
    [Stop]. An entry equal to [Stop] is an earlier such answer: the policy
    answers [Stop] when the time elapsed and the interval it has just drawn
    together exceed [MaxElapsedTime], and the interval is drawn at random
    around the current one, so that the answer after a [Stop] can be a wait
    again. *)
Definition NextBackOff (schedule : list Z) : Z * list Z :=
  match schedule with
  | [] => (Stop, [])
  | next :: rest => (next, rest)
  end.

(** [backOffContext.NextBackOff], the policy [backoff.WithContext(b, ctx)]:
    [Stop] as soon as the context is done, the wrapped policy otherwise. *)
Definition ctxNextBackOff (ctx : Context) (now : Z) (schedule : list Z)
  : Z * list Z :=
  if ctxDone ctx now then (Stop, schedule) else NextBackOff schedule.

Section Retry.
Context {S logger A : Type}.

(** The wait between two attempts: [select] on [ctx.Done()] and the timer
    started for [next]. A context done before the timer fires ends the wait
    at that instant with [ctx.Err()]; when both fall on the same instant Go
    takes either case, and the timer is taken here. *)
Definition sleep (ctx : Context) (next : Z) (w : World S logger)
  : option error * World S logger :=
  let wake := now w + Z.max 0 next in
  match doneAt ctx with
  | Some t =>
      if t <? wake
      then (Some (cause ctx),
            {| now := Z.max (now w) t; client := client w; trace := trace w |})
      else (None, {| now := wake; client := client w; trace := trace w |})
  | None => (None, {| now := wake; client := client w; trace := trace w |})
  end.

(** [backoff.Retry(operation, backoff.WithContext(b, ctx))], as release 4.2
    of the imported package has it. [A] is the type of the variables that the
    closure [operation] captures and assigns. The loop: run the operation;
    [nil] ends it; a permanent error ends it with the error it carries;
    otherwise ask the policy, and on [Stop] return [ctx.Err()] if there is one
    and the operation's error if not; otherwise wait and go round again. The
    call of [b.Reset()] that opens the loop has no part here, the schedule
    being the answers given after it. The branches on the context and on the
    schedule spell out [ctxNextBackOff] so that the recursion is on the
    schedule; [Retry_asks_ctxNextBackOff] states the loop with
    [ctxNextBackOff] itself. *)
Fixpoint Retry (operation : A -> World S logger -> option error * A * World S logger)
    (ctx : Context) (schedule : list Z) (a : A) (w : World S logger)
    {struct schedule} : option error * list Z * A * World S logger :=
  let '(r, a1, w1) := operation a w in
  match r with
  | None => (None, schedule, a1, w1)
  | Some err =>
      match asPermanent err with
      | Some inner => (Some inner, schedule, a1, w1)
      | None =>
          match ctxErr ctx (now w1) with
          | Some cerr => (Some cerr, schedule, a1, w1)
          | None =>
              match schedule with
              | [] => (Some err, [], a1, w1)
              | next :: rest =>
                  if next =? Stop then (Some err, rest, a1, w1)
                  else
                    match sleep ctx next w1 with
                    | (Some cerr, w2) => (Some cerr, rest, a1, w2)
                    | (None, w2) => Retry operation ctx rest a1 w2
                    end
              end
          end
      end
  end.
End Retry.

End Backoff.
Export Backoff.

(** ** [ConnectToLiveshare] *)

Section ConnectToLiveshare.
Context {S logger Session : Type}.
Variable api : apiClient S.
(** [liveshare.Connect] *)
Variable liveshareConnect : Context -> Z -> Options logger -> option Session * option error.

Definition emit (e : Event logger) (w : World S logger) : World S logger :=
  {| now := now w; client := client w; trace := trace w ++ [e] |}.

(** [apiClient.StartCodespace(ctx, name)] *)
Definition callStartCodespace (ctx : Context) (name : string)
    (w : World S logger) : option error * World S logger :=
  let '(r, took, s) := StartCodespace api (client w) ctx (now w) name in
  (r, {| now := now w + Z.max 0 took; client := s;
         trace := trace w ++ [CallStartCodespace name] |}).

(** [apiClient.GetCodespace(ctx, name, includeConnection)] *)
Definition callGetCodespace (ctx : Context) (name : string)
    (includeConnection : bool) (w : World S logger)
    : (Codespace + error) * World S logger :=
  let '(r, took, s) :=
    GetCodespace api (client w) ctx (now w) name includeConnection in
  (r, {| now := now w + Z.max 0 took; client := s;
         trace := trace w ++ [CallGetCodespace name includeConnection] |}).

(** The deferred [progress.StopProgressIndicator()] calls, run when the
    function returns: [defer] is scoped to the function, so the one
    registered in the first [if] also runs at the end. *)
Fixpoint runDeferred (n : nat) (w : World S logger) : World S logger :=
  match n with
  | O => w
  | Datatypes.S n' => runDeferred n' (emit StopProgressIndicator w)
  end.

(** The closure passed to [backoff.Retry]; it captures and assigns the
    variable [codespace]. After a failed fetch the function returns without
    reading that variable again, so it is left as it was. *)
Definition operation (ctx : Context) (codespace : Codespace)
    (w : World S logger) : option error * Codespace * World S logger :=
  if connectionReady codespace then (None, codespace, w)
  else
    let '(r, w1) := callGetCodespace ctx (Name codespace) true w in
    match r with
    | inr err =>
        (Some (PermanentError (Errorf_w "error getting codespace: " err)),
         codespace, w1)
    | inl fetched =>
        (Some (errorString "codespace not ready yet"), fetched, w1)
    end.

Definition timedOut : error :=
  errorString "timed out while waiting for the codespace to start".

Definition optionsOf (sessionLogger : logger) (codespace : Codespace)
    : Options logger :=
  {| optSessionID := SessionID (Connection codespace);
     optSessionToken := SessionToken (Connection codespace);
     optRelaySAS := RelaySAS (Connection codespace);
     optRelayEndpoint := RelayEndpoint (Connection codespace);
     optHostPublicKeys := HostPublicKeys (Connection codespace);
     optLogger := sessionLogger |}.

(** [ConnectToLiveshare]. [schedule] is the run's exponential policy (see
    [NextBackOff]); the result is the pair [(sess, err)] and the world
    after the deferred calls. The first [let] is the [if] on the state, with
    the number of deferred calls it registers; a start error returns at
    once. After a failed [Retry] the policy is asked once more, and its
    answer alone decides between the time-out error and the loop's error. *)
Definition ConnectToLiveshare (ctx : Context) (sessionLogger : logger)
    (schedule : list Z) (codespace : Codespace) (w : World S logger)
    : (option Session * option error) * World S logger :=
  let '(startErr, deferred, w1) :=
    if negb (State codespace =? CodespaceStateAvailable)%string then
      let w0 := emit (StartProgressIndicatorWithLabel "Starting codespace") w in
      let '(err, w1) := callStartCodespace ctx (Name codespace) w0 in
      (err, 1%nat, w1)
    else (None, 0%nat, w) in
  match startErr with
  | Some err =>
      ((None, Some (Errorf_w "error starting codespace: " err)),
       runDeferred deferred w1)
  | None =>
      let '(err, schedule1, codespace1, w2) :=
        Retry (operation ctx) ctx schedule codespace w1 in
      match err with
      | Some err =>
          if fst (ctxNextBackOff ctx (now w2) schedule1) =? Stop
          then ((None, Some timedOut), runDeferred deferred w2)
          else ((None, Some err), runDeferred deferred w2)
      | None =>
          let w3 :=
            emit (StartProgressIndicatorWithLabel "Connecting to codespace") w2 in
          let opts := optionsOf sessionLogger codespace1 in
          let res := liveshareConnect ctx (now w3) opts in
          (res, runDeferred (Datatypes.S deferred) (emit (CallConnect opts) w3))
      end
  end.
End ConnectToLiveshare.

(** ** Properties of runs *)

(** Whether an event is a fetch of the record. *)
Definition isGetCodespace {logger : Type} (e : Event logger) : bool :=
  match e with
  | CallGetCodespace _ _ => true
  | _ => false
  end.

(** The environment does not become ready: whenever it is asked, the client
    answers with a record that is not ready. *)
Definition stillNotReady {S : Type} (api : apiClient S) (ctx : Context) : Prop :=
  forall s t name includeConnection,
    exists fetched took s',
      GetCodespace api s ctx t name includeConnection = (inl fetched, took, s')
      /\ connectionReady fetched = false.

(** ** A scripted API client and sample records *)

Module Scripted.

(** A client in the manner of the mocks of the test files: [StartCodespace]
    always gives [startAnswer]; the [n]-th call of [GetCodespace] gives the
    [n]-th entry of [getAnswers], and [getAfter] once they are used up. Each
    answer comes with the time the call takes. The client's state is the
    number of [GetCodespace] calls answered. *)
Record Script : Type := {
  startAnswer : option error * Z;
  getAnswers : list ((Codespace + error) * Z);
  getAfter : (Codespace + error) * Z
}.

Definition scripted (sc : Script) : apiClient nat :=
  {| GetCodespace := fun n _ _ _ _ =>
       let '(r, took) := nth n (getAnswers sc) (getAfter sc) in
       (r, took, Datatypes.S n);
     StartCodespace := fun n _ _ _ =>
       (fst (startAnswer sc), snd (startAnswer sc), n) |}.

Definition readyConnection : CodespaceConnection :=
  {| SessionID := "session-id";
     SessionToken := "session-token";
     RelayEndpoint := "sb://relay.example";
     RelaySAS := "relay-sas";
     HostPublicKeys := ["host-key"] |}.

Definition noConnection : CodespaceConnection :=
  {| SessionID := EmptyString;
     SessionToken := EmptyString;
     RelayEndpoint := EmptyString;
     RelaySAS := EmptyString;
     HostPublicKeys := [] |}.

Definition readyCodespace : Codespace :=
  {| Name := "monalisa-cli"; State := "Available"; Connection := readyConnection |}.

Definition shutdownCodespace : Codespace :=
  {| Name := "monalisa-cli"; State := "Shutdown"; Connection := noConnection |}.

Definition startingCodespace : Codespace :=
  {| Name := "monalisa-cli"; State := "Starting"; Connection := noConnection |}.

(** A connector that succeeds and hands back the options it was given. *)
Definition echoConnect (_ : Context) (_ : Z) (opts : Options unit)
  : option (Options unit) * option error := (Some opts, None).

Definition world0 : World nat unit := {| now := 0; client := 0%nat; trace := [] |}.

(** A codespace that is still starting whenever it is fetched; starting it
    and fetching it take 100 ms each. *)
Definition neverReady : Script :=
  {| startAnswer := (None, 100);
     getAnswers := [];
     getAfter := (inl startingCodespace, 100) |}.

(** A codespace whose start request is refused. *)
Definition startRefused : Script :=
  {| startAnswer := (Some (errorString "HTTP 503"), 100);
     getAnswers := [];
     getAfter := (inl startingCodespace, 100) |}.

(** A client whose fetch is aborted with the context's error. *)
Definition fetchAborted : Script :=
  {| startAnswer := (None, 100);
     getAnswers := [];
     getAfter := (inr (wrapError "Get /user/codespaces/monalisa-cli: " Canceled), 100) |}.

(** A client whose second fetch fails. *)
Definition secondFetchFails : Script :=
  {| startAnswer := (None, 100);
     getAnswers := [(inl startingCodespace, 100)];
     getAfter := (inr (errorString "HTTP 500"), 100) |}.

End Scripted.

(** ** Decimal text, as [strconv] and [fmt] produce and read it *)

Module Strconv.

(** [strconv.Itoa(n)], also the verb [%d] of [fmt.Sprintf]. *)
Definition Itoa (n : Z) : string := NilZero.string_of_int (Z.to_int n).

(** The range of Go's [int] on the 64-bit platforms. *)
Definition inIntRange (n : Z) : bool :=
  (- 2 ^ 63 <=? n) && (n <=? 2 ^ 63 - 1).

Definition ErrSyntax : error := errorString "invalid syntax".
Definition ErrRange : error := errorString "value out of range".

(** The digits of [strconv.Quote] for an escaped byte. *)
Definition lowerhex (n : N) : ascii :=
  match String.get (N.to_nat n) "0123456789abcdef" with
  | Some c => c
  | None => "0"%char
  end.

(** What [strconv.Quote] writes for one byte of an ASCII text: the double
    quote and the backslash behind a backslash, the printable bytes as they
    are, the control bytes behind a backslash by their letter or as [x] and
    two digits. A byte beyond ASCII is left as it is here, where Go decodes
    the text as UTF-8 and escapes what is no printable rune. *)
Definition backslashed (letters : string) : string := String "092"%char letters.

Definition quoteByte (c : ascii) : string :=
  let n := N_of_ascii c in
  if Ascii.eqb c "034"%char || Ascii.eqb c "092"%char then backslashed (String c EmptyString)
  else if ((32 <=? n) && (n <=? 126))%N then String c EmptyString
  else if (n =? 7)%N then backslashed "a"
  else if (n =? 8)%N then backslashed "b"
  else if (n =? 12)%N then backslashed "f"
  else if (n =? 10)%N then backslashed "n"
  else if (n =? 13)%N then backslashed "r"
  else if (n =? 9)%N then backslashed "t"
  else if (n =? 11)%N then backslashed "v"
  else if ((n <? 32) || (n =? 127))%N then
    backslashed (String "x" (String (lowerhex (n / 16)%N)
                           (String (lowerhex (n mod 16)%N) EmptyString)))
  else String c EmptyString.

(** [strconv.Quote(s)] *)
Definition Quote (s : string) : string :=
  String "034"%char
    ((fix escape (s : string) : string :=
        match s with
        | EmptyString => EmptyString
        | String c rest => quoteByte c ++ escape rest
        end) s ++ String "034"%char EmptyString).

(** The [*strconv.NumError] of [Atoi] for the text [s], whose message is
    [strconv.Atoi: parsing <quoted s>: <err>] and which unwraps to [err]. *)
Definition NumError (s : string) (err : error) : error :=
  wrapError ("strconv.Atoi: parsing " ++ Quote s ++ ": ") err.

(** [strconv.Atoi(s)]: an optional sign, then one decimal digit or more; a
    value outside the range of [int] is an error. *)
Definition Atoi (s : string) : Z + error :=
  let parsed :=
    match s with
    | EmptyString => None
    | String sign digits =>
        if Ascii.eqb sign "+"
        then option_map Decimal.Pos (NilZero.uint_of_string digits)
        else NilZero.int_of_string s
    end in
  match parsed with
  | None => inr (NumError s ErrSyntax)
  | Some d =>
      if inIntRange (Z.of_int d) then inl (Z.of_int d)
      else inr (NumError s ErrRange)
  end.

End Strconv.
Export Strconv.

(** ** The invoker of the package [rpc] *)

Module Rpc.

(** The responses of the three remote services, with the fields that the
    tests fill in. *)
Module Ssh.
Record StartRemoteServerResponse : Type := {
  ServerPort : string;
  User : string;
  Message : string;
  Result : bool
}.
End Ssh.

Module Jupyter.
Record GetRunningServerResponse : Type := {
  Port : string;
  ServerUrl : string;
  Message : string;
  Result : bool
}.
End Jupyter.

Module CodespaceHost.
Record RebuildContainerResponse : Type := {
  RebuildContainer : bool
}.
Record NotifyCodespaceOfClientActivityResponse : Type := {
  Message : string;
  Result : bool
}.
End CodespaceHost.

(** What becomes of the activity notification: the server answers, the call
    fails, or no answer ever comes. *)
Inductive NotifyOutcome : Type :=
| NotifyAnswered (response : CodespaceHost.NotifyCodespaceOfClientActivityResponse)
| NotifyFailed (err : error)
| NotifyPending.

(** [mockServer] of the test file: the functions that the test installs and
    the requests that the generated mock records, here the client activities
    of each [NotifyCodespaceOfClientActivity] request, oldest first. *)
Record mockServer : Type := {
  NotifyCodespaceOfClientActivityFunc : list string -> NotifyOutcome;
  GetRunningServerFunc : unit -> Jupyter.GetRunningServerResponse + error;
  RebuildContainerAsyncFunc : bool -> CodespaceHost.RebuildContainerResponse + error;
  StartRemoteServerAsyncFunc : unit -> Ssh.StartRemoteServerResponse + error;
  NotifyCodespaceOfClientActivityCalls : list (list string)
}.

(** Modelled from the spec: the constant [connectedEventName] of the invoker,
    which is not among the sources; the spec gives the event name as
    [connected]. *)
Definition connectedEventName : string := "connected".

(** The result of a test helper. *)
Inductive TestResult : Type :=
| Passed
| Fatalf (message : string)
| Panicked.

(** [verifyNotifyCodespaceOfClientActivity]: some recorded request has
    [connectedEventName] as its first activity. Indexing an empty slice of
    activities panics. *)
Fixpoint verifyCalls (calls : list (list string)) : TestResult :=
  match calls with
  | [] => Fatalf ("no activity named " ++ connectedEventName)
  | activities :: rest =>
      match activities with
      | [] => Panicked
      | first :: _ =>
          if (first =? connectedEventName)%string then Passed
          else verifyCalls rest
      end
  end.

Definition verifyNotifyCodespaceOfClientActivity (server : mockServer)
  : TestResult :=
  match NotifyCodespaceOfClientActivityCalls server with
  | [] => Fatalf "no client activity calls"
  | calls => verifyCalls calls
  end.

(** Modelled from the spec: the invoker itself ([CreateInvoker] and the
    methods of the value it returns) is not among the sources; only its tests
    are. The definitions below follow section 4.6 of the spec and the
    messages that the tests expect. *)

(** The invoker borrows the channel to the server. *)
Record invoker : Type := {
  server : mockServer
}.

Definition recordNotify (activities : list string) (srv : mockServer)
  : mockServer :=
  {| NotifyCodespaceOfClientActivityFunc := NotifyCodespaceOfClientActivityFunc srv;
     GetRunningServerFunc := GetRunningServerFunc srv;
     RebuildContainerAsyncFunc := RebuildContainerAsyncFunc srv;
     StartRemoteServerAsyncFunc := StartRemoteServerAsyncFunc srv;
     NotifyCodespaceOfClientActivityCalls :=
       NotifyCodespaceOfClientActivityCalls srv ++ [activities] |}.

(** Modelled from the spec: [NotifyActivity(ctx, eventName)], best effort.
    The request reaches the server, which records it; what the server makes
    of it is not returned to the caller. *)
Definition notifyCodespaceOfClientActivity (eventName : string)
    (srv : mockServer) : NotifyOutcome * mockServer :=
  (NotifyCodespaceOfClientActivityFunc srv [eventName],
   recordNotify [eventName] srv).

(** Modelled from the spec: [New(ctx, session)]. [dial] is the error of
    opening the channel over the session, if any; once the channel is usable
    the notification [connected] is fired and its outcome dropped. The
    message of a failed dial is the one the tests print. *)
Definition CreateInvoker (dial : option error) (srv : mockServer)
  : (option invoker * option error) * mockServer :=
  match dial with
  | Some err =>
      ((None, Some (Errorf_w "error connecting to internal server: " err)), srv)
  | None =>
      let '(_, srv1) := notifyCodespaceOfClientActivity connectedEventName srv in
      ((Some {| server := srv1 |}, None), srv1)
  end.

(** Modelled from the spec: [StartShellServer(ctx)], named [StartSSHServer]
    in the tests. A failed call and a port that does not parse are errors
    whose wording the spec leaves open; the wording of the failure envelope is
    the one the tests expect. *)
Definition StartSSHServer (i : invoker) : Z * string * option error :=
  match StartRemoteServerAsyncFunc (server i) tt with
  | inr err => (0, EmptyString, Some (Errorf_w "failed to invoke SSH RPC: " err))
  | inl response =>
      if negb (Ssh.Result response) then
        (0, EmptyString,
         Some (Errorf_s "failed to start SSH server: " (Ssh.Message response)))
      else
        match Atoi (Ssh.ServerPort response) with
        | inr err =>
            (0, EmptyString, Some (Errorf_w "failed to parse SSH server port: " err))
        | inl port => (port, Ssh.User response, None)
        end
  end.

(** Modelled from the spec: [StartNotebookServer(ctx)], named
    [StartJupyterServer] in the tests. *)
Definition StartJupyterServer (i : invoker) : Z * string * option error :=
  match GetRunningServerFunc (server i) tt with
  | inr err =>
      (0, EmptyString, Some (Errorf_w "failed to invoke JupyterLab RPC: " err))
  | inl response =>
      if negb (Jupyter.Result response) then
        (0, EmptyString,
         Some (Errorf_s "failed to start JupyterLab: " (Jupyter.Message response)))
      else
        match Atoi (Jupyter.Port response) with
        | inr err =>
            (0, EmptyString, Some (Errorf_w "failed to parse JupyterLab port: " err))
        | inl port => (port, Jupyter.ServerUrl response, None)
        end
  end.

(** Modelled from the spec: [RebuildContainer(ctx, full)]. The request
    carries the caller's choice; the fixed message is the one the tests
    expect. *)
Definition RebuildContainer (i : invoker) (full : bool) : option error :=
  match RebuildContainerAsyncFunc (server i) full with
  | inr err => Some (Errorf_w "failed to invoke rebuild RPC: " err)
  | inl response =>
      if negb (CodespaceHost.RebuildContainer response)
      then Some (errorString "couldn't rebuild codespace")
      else None
  end.

(** [newMockServer] of the test file: the notification is answered with
    success; the other functions are installed by each test, and calling one
    that is not installed is a failed call here. *)
Definition notInstalled : error := errorString "mock function is nil".

Definition newMockServer : mockServer :=
  {| NotifyCodespaceOfClientActivityFunc := fun _ =>
       NotifyAnswered {| CodespaceHost.Message := EmptyString;
                         CodespaceHost.Result := true |};
     GetRunningServerFunc := fun _ => inr notInstalled;
     RebuildContainerAsyncFunc := fun _ => inr notInstalled;
     StartRemoteServerAsyncFunc := fun _ => inr notInstalled;
     NotifyCodespaceOfClientActivityCalls := [] |}.

(** The assignments that the tests make to the fields of the mock. *)
Definition withNotify (f : list string -> NotifyOutcome) (srv : mockServer)
  : mockServer :=
  {| NotifyCodespaceOfClientActivityFunc := f;
     GetRunningServerFunc := GetRunningServerFunc srv;
     RebuildContainerAsyncFunc := RebuildContainerAsyncFunc srv;
     StartRemoteServerAsyncFunc := StartRemoteServerAsyncFunc srv;
     NotifyCodespaceOfClientActivityCalls := NotifyCodespaceOfClientActivityCalls srv |}.

Definition withGetRunningServer (resp : Jupyter.GetRunningServerResponse)
    (srv : mockServer) : mockServer :=
  {| NotifyCodespaceOfClientActivityFunc := NotifyCodespaceOfClientActivityFunc srv;
     GetRunningServerFunc := fun _ => inl resp;
     RebuildContainerAsyncFunc := RebuildContainerAsyncFunc srv;
     StartRemoteServerAsyncFunc := StartRemoteServerAsyncFunc srv;
     NotifyCodespaceOfClientActivityCalls := NotifyCodespaceOfClientActivityCalls srv |}.

Definition withRebuildContainerAsync (resp : CodespaceHost.RebuildContainerResponse)
    (srv : mockServer) : mockServer :=
  {| NotifyCodespaceOfClientActivityFunc := NotifyCodespaceOfClientActivityFunc srv;
     GetRunningServerFunc := GetRunningServerFunc srv;
     RebuildContainerAsyncFunc := fun _ => inl resp;
     StartRemoteServerAsyncFunc := StartRemoteServerAsyncFunc srv;
     NotifyCodespaceOfClientActivityCalls := NotifyCodespaceOfClientActivityCalls srv |}.

Definition withStartRemoteServerAsync (resp : Ssh.StartRemoteServerResponse)
    (srv : mockServer) : mockServer :=
  {| NotifyCodespaceOfClientActivityFunc := NotifyCodespaceOfClientActivityFunc srv;
     GetRunningServerFunc := GetRunningServerFunc srv;
     RebuildContainerAsyncFunc := RebuildContainerAsyncFunc srv;
     StartRemoteServerAsyncFunc := fun _ => inl resp;
     NotifyCodespaceOfClientActivityCalls := NotifyCodespaceOfClientActivityCalls srv |}.

End Rpc.

(** ** [ListenTCP] *)

Module Net.

(** [net.TCPAddr] *)
Record TCPAddr : Type := {
  IP : string;
  Port : Z
}.

(** [net.TCPListener]; [Addr] is the local address the socket is bound to,
    the value of [listener.Addr()]. *)
Record TCPListener : Type := {
  Addr : TCPAddr
}.

Section ListenTCP.
(** [net.ResolveTCPAddr] and [net.ListenTCP], the operating system's part. *)
Variable ResolveTCPAddr : string -> string -> TCPAddr + error.
Variable netListenTCP : string -> TCPAddr -> TCPListener + error.

(** [ListenTCP] *)
Definition ListenTCP (port : Z) : option TCPListener * Z * option error :=
  match ResolveTCPAddr "tcp" ("127.0.0.1:" ++ Itoa port) with
  | inr err => (None, 0, Some (Errorf_w "failed to build tcp address: " err))
  | inl addr =>
      match netListenTCP "tcp" addr with
      | inr err =>
          (None, 0,
           Some (Errorf_w "failed to listen to local port over tcp: " err))
      | inl listener => (Some listener, Port (Addr listener), None)
      end
  end.
End ListenTCP.

(** A TCP stack for examples: it resolves the loopback literal with port 0
    or 8080, refuses to bind 8080 (taken) and binds port 0 to the ephemeral
    port 49152. *)
Definition sampleResolve (network address : string) : TCPAddr + error :=
  if (address =? "127.0.0.1:0")%string then inl {| IP := "127.0.0.1"; Port := 0 |}
  else if (address =? "127.0.0.1:8080")%string
       then inl {| IP := "127.0.0.1"; Port := 8080 |}
       else inr (errorString "invalid port").

Definition sampleListen (network : string) (addr : TCPAddr)
  : TCPListener + error :=
  if Port addr =? 0 then inl {| Addr := {| IP := IP addr; Port := 49152 |} |}
  else inr (errorString "bind: address already in use").

End Net.

(** ** Observing a run of [ConnectToLiveshare] *)

(** The events that a run adds to the trace: those of [w'] after the ones
    [w] already had. *)
Definition eventsSince {S logger : Type} (w w' : World S logger)
  : list (Event logger) :=
  skipn (length (trace w)) (trace w').

Definition isProgressStart {logger : Type} (e : Event logger) : bool :=
  match e with
  | StartProgressIndicatorWithLabel _ => true
  | _ => false
  end.

Definition isProgressStop {logger : Type} (e : Event logger) : bool :=
  match e with
  | StopProgressIndicator => true
  | _ => false
  end.

(** A fetch of the record that asks for its connection data. *)
Definition isFetchWithConnection {logger : Type} (e : Event logger) : bool :=
  match e with
  | CallGetCodespace _ true => true
  | _ => false
  end.

(** ** Text helpers of the package [strings] *)

Module Strings.

(** What follows [prefix] in [s], when [s] starts with it. *)
Fixpoint afterPrefix (s prefix : string) : option string :=
  match prefix, s with
  | EmptyString, _ => Some s
  | String a prefix', String b s' =>
      if Ascii.eqb a b then afterPrefix s' prefix' else None
  | String _ _, EmptyString => None
  end.

(** [strings.Replace(s, old, new, 1)]: the leftmost occurrence of [old] in
    [s] replaced by [new]; [s] itself when there is none. *)
Fixpoint ReplaceFirst (s old new : string) : string :=
  match afterPrefix s old with
  | Some after => new ++ after
  | None =>
      match s with
      | EmptyString => EmptyString
      | String c rest => String c (ReplaceFirst rest old new)
      end
  end.

(** [strings.ReplaceAll(s, old, new)] for an [old] of one byte. *)
Fixpoint ReplaceAllByte (s : string) (old : ascii) (new : string) : string :=
  match s with
  | EmptyString => EmptyString
  | String c rest =>
      if Ascii.eqb c old then new ++ ReplaceAllByte rest old new
      else String c (ReplaceAllByte rest old new)
  end.

(** [strings.Repeat(s, count)] for a count that is not negative. *)
Fixpoint Repeat (s : string) (count : nat) : string :=
  match count with
  | O => EmptyString
  | Datatypes.S n => s ++ Repeat s n
  end.

(** The text up to the first byte [sep] and the text after it, when [sep]
    occurs. *)
Fixpoint cut (s : string) (sep : ascii) : option (string * string) :=
  match s with
  | EmptyString => None
  | String c rest =>
      if Ascii.eqb c sep then Some (EmptyString, rest)
      else
        match cut rest sep with
        | Some (before, after) => Some (String c before, after)
        | None => None
        end
  end.

(** [strings.SplitN(s, sep, n)] for a separator of one byte and [n] at least
    one: at most [n] pieces, the last one being what is left unsplit. *)
Fixpoint SplitN (s : string) (sep : ascii) (n : nat) : list string :=
  match n with
  | O => []
  | Datatypes.S O => [s]
  | Datatypes.S n' =>
      match cut s sep with
      | None => [s]
      | Some (before, after) => before :: SplitN after sep n'
      end
  end.

(** The line feed. *)
Definition newline : string := String "010"%char EmptyString.

(** Whether the byte [c] occurs in [s]. *)
Fixpoint hasByte (c : ascii) (s : string) : bool :=
  match s with
  | EmptyString => false
  | String d rest => Ascii.eqb d c || hasByte c rest
  end.

(** [strings.Split(s, sep)] for a separator of one byte. *)
Fixpoint SplitByte (s : string) (sep : ascii) : list string :=
  match s with
  | EmptyString => [EmptyString]
  | String c rest =>
      if Ascii.eqb c sep then EmptyString :: SplitByte rest sep
      else
        match SplitByte rest sep with
        | piece :: pieces => String c piece :: pieces
        | [] => [String c EmptyString]
        end
  end.

End Strings.

(** ** The pull request commands of the package [command] *)

Module Pr.

(** How a Go function ends: it returns, or it panics. *)
Inductive Outcome (A : Type) : Type :=
| Returns (a : A)
| Panics (err : error).
Arguments Returns {A} a.
Arguments Panics {A} err.

(** [determineEditor]; [GOOS] is [runtime.GOOS] and [Getenv] is [os.Getenv]. *)
Definition determineEditor (GOOS : string) (Getenv : string -> string) : string :=
  if (GOOS =? "windows")%string then "notepad"
  else if nonEmpty (Getenv "VISUAL") then Getenv "VISUAL"
  else if nonEmpty (Getenv "EDITOR") then Getenv "EDITOR"
  else "nano".

(** [currentBranch]; [head] is the result of [git.Head()]. *)
Definition currentBranch (head : string + error) : Outcome string :=
  match head with
  | inr err => Panics err
  | inl ref => Returns (Strings.ReplaceFirst ref "refs/heads/" EmptyString)
  end.

(** [graphqlPullRequest] *)
Record graphqlPullRequest : Type := {
  Number : Z;
  Title : string;
  URL : string;
  HeadRefName : string
}.

(** [fmt.Sprintf("[%v] %s", pr.Number, pr.Title)] *)
Definition optionLabel (pr : graphqlPullRequest) : string :=
  "[" ++ Itoa (Number pr) ++ "] " ++ Title pr.

(** The list [prs] of [interactiveList]: the pull request of the current
    branch, if any, then those created by the viewer, then those awaiting
    the viewer's review. *)
Definition candidates (currentPr : option graphqlPullRequest)
    (viewerCreated reviewRequested : list graphqlPullRequest)
  : list graphqlPullRequest :=
  (match currentPr with Some pr => [pr] | None => [] end)
  ++ viewerCreated ++ reviewRequested.

(** The loop of [interactiveList] that builds [prOptions]; [seen] is the map
    [map[int]bool], a missing key reading as [false]. *)
Fixpoint prOptionsLoop (prs : list graphqlPullRequest) (seen : Z -> bool)
    (prOptions : list string) : list string :=
  match prs with
  | [] => prOptions
  | pr :: rest =>
      if seen (Number pr) then prOptionsLoop rest seen prOptions
      else prOptionsLoop rest
             (fun n => if n =? Number pr then true else seen n)
             (prOptions ++ [optionLabel pr])
  end.

Definition prOptions (prs : list graphqlPullRequest) : list string :=
  prOptionsLoop prs (fun _ => false) [].

(** What [interactiveList] ends up doing. *)
Inductive Action : Type :=
| OpenInBrowser (launcher : string) (url : string)
| Checkout (number : string)
| NoAction.

Section InteractiveList.
(** [pullRequests()], [survey.Ask] (given the options shown, it gives the
    index of the chosen pull request and the chosen action),
    [utils.BrowserLauncher()] and [checkoutPr]. *)
Variable pullRequests :
  (option graphqlPullRequest * list graphqlPullRequest * list graphqlPullRequest) + error.
Variable Ask : list string -> list string -> (nat * string) + error.
Variable BrowserLauncher : list string + error.
Variable checkoutPr : string -> option error.

(** [interactiveList]: the action taken and the error returned. Indexing
    [prs] or [launcher] out of range, or choosing an action that is not one
    of the three, panics. *)
Definition interactiveList : Outcome (Action * option error) :=
  match pullRequests with
  | inr err => Returns (NoAction, Some err)
  | inl (currentPr, viewerCreated, reviewRequested) =>
      let prs := candidates currentPr viewerCreated reviewRequested in
      let openAction := "open in browser" in
      let checkoutAction := "checkout PR locally" in
      let cancelAction := "cancel" in
      match Ask (prOptions prs) [openAction; checkoutAction; cancelAction] with
      | inr err => Returns (NoAction, Some err)
      | inl (answersPr, answersAction) =>
          if (answersAction =? cancelAction)%string then Returns (NoAction, None)
          else if (answersAction =? openAction)%string then
            match BrowserLauncher with
            | inr err => Returns (NoAction, Some err)
            | inl launcher =>
                match launcher, nth_error prs answersPr with
                | program :: _, Some pr => Returns (OpenInBrowser program (URL pr), None)
                | _, _ => Panics (errorString "index out of range")
                end
            end
          else if (answersAction =? checkoutAction)%string then
            match nth_error prs answersPr with
            | Some pr =>
                let number := Itoa (Number pr) in
                Returns (Checkout number, checkoutPr number)
            | None => Panics (errorString "index out of range")
            end
          else Panics (errorString "nil function call")
      end
  end.
End InteractiveList.

(** The part of [github.Repo] and of [github.PullRequest] that [checkoutPr]
    reads; [IsSameRepo] is the answer of the method of that name. The types
    are declared in the package [github], which is not among the sources. *)
Record Repo : Type := {
  RepoName : string;
  OwnerLogin : string;
  DefaultBranch : string
}.

Record PullRequest : Type := {
  PrNumber : Z;
  HeadRef : string;
  HeadRepo : option Repo;
  BaseRepo : Repo;
  MaintainerCanModify : bool;
  IsSameRepo : bool
}.

(** What [checkoutPr] calls outside itself: [client.PullRequest(&project,
    number)]; [github.LocalRepo()], which gives the method [RemoteForRepo]
    (the name of the remote found, or an error) unless it fails; [git.Run]
    and [git.HasFile] on their arguments; and the Git URL of the project of
    a repository on the host at hand. *)
Record Env : Type := {
  lookupPullRequest : string -> PullRequest + error;
  LocalRepo : (Repo -> string + error) + error;
  gitRun : list string -> option error;
  gitHasFile : list string -> bool;
  GitURL : string -> string -> string
}.

(** How a run of [checkoutPr] ends: it returns, or [utils.Check] ends it on
    the error of a git command. [utils.Check] is not among the sources; a
    run is taken to stop where it is given an error. *)
Inductive Exit : Type :=
| Returned (err : option error)
| Checked (err : error).

(** The git commands in the order given, each under [utils.Check]: the run
    stops at the first that fails. The result holds the commands run. *)
Fixpoint runChecked (env : Env) (commands done : list (list string))
  : Exit * list (list string) :=
  match commands with
  | [] => (Returned None, done)
  | command :: rest =>
      match gitRun env command with
      | Some err => (Checked err, (done ++ [command])%list)
      | None => runChecked env rest (done ++ [command])%list
      end
  end.

(** The local branch of the second arm of [checkoutPr], taken when no remote
    is known for the head repository. *)
Definition newBranchNameWithoutRemote (pullRequest : PullRequest) : string :=
  match HeadRepo pullRequest with
  | Some headRepo =>
      if (HeadRef pullRequest =? DefaultBranch headRepo)%string
      then OwnerLogin headRepo ++ "-" ++ HeadRef pullRequest
      else HeadRef pullRequest
  | None => HeadRef pullRequest
  end.

(** The git commands of [checkoutPr] for a pull request, the remote of its
    base and the remote of its head if one is known, in the order in which
    the function runs them. *)
Definition checkoutCommands (env : Env) (pullRequest : PullRequest)
    (baseRemote : string) (headRemote : option string) : list (list string) :=
  match headRemote with
  | Some headRemoteName =>
      let newBranchName := HeadRef pullRequest in
      let remoteBranch := headRemoteName ++ "/" ++ HeadRef pullRequest in
      let refSpec :=
        "+refs/heads/" ++ HeadRef pullRequest ++ ":refs/remotes/" ++ remoteBranch in
      ["fetch"; headRemoteName; refSpec]
      :: (if gitHasFile env ["refs"; "heads"; newBranchName] then
            [["checkout"; newBranchName];
             ["merge"; "--ff-only"; "refs/remotes/" ++ remoteBranch]]
          else
            [["checkout"; "-b"; newBranchName; "--no-track"; remoteBranch];
             ["config"; "branch." ++ newBranchName ++ ".remote"; headRemoteName];
             ["config"; "branch." ++ newBranchName ++ ".merge";
              "refs/heads/" ++ HeadRef pullRequest]])
  | None =>
      let newBranchName := newBranchNameWithoutRemote pullRequest in
      let ref := "refs/pull/" ++ Itoa (PrNumber pullRequest) ++ "/head" in
      let '(remote, mergeRef) :=
        match MaintainerCanModify pullRequest, HeadRepo pullRequest with
        | true, Some headRepo =>
            (GitURL env (OwnerLogin headRepo) (RepoName headRepo),
             "refs/heads/" ++ HeadRef pullRequest)
        | _, _ => (baseRemote, ref)
        end in
      [["fetch"; baseRemote; ref ++ ":" ++ newBranchName];
       ["checkout"; newBranchName];
       ["config"; "branch." ++ newBranchName ++ ".remote"; remote];
       ["config"; "branch." ++ newBranchName ++ ".merge"; mergeRef]]
  end.

(** [checkoutPr]: how the run ends and the git commands it ran. An error of
    the second [RemoteForRepo] is dropped, the remote of the head then being
    taken as [nil]. The call [project()], which panics when it finds no
    project, is taken to return. *)
Definition checkoutPr (env : Env) (number : string) : Exit * list (list string) :=
  match Atoi number with
  | inr err => (Returned (Some err), [])
  | inl _ =>
      match lookupPullRequest env number with
      | inr err => (Returned (Some err), [])
      | inl pullRequest =>
          match LocalRepo env with
          | inr err => (Returned (Some err), [])
          | inl RemoteForRepo =>
              match RemoteForRepo (BaseRepo pullRequest) with
              | inr err => (Returned (Some err), [])
              | inl baseRemote =>
                  let headRemote :=
                    if IsSameRepo pullRequest then Some baseRemote
                    else
                      match HeadRepo pullRequest with
                      | Some headRepo =>
                          match RemoteForRepo headRepo with
                          | inl remote => Some remote
                          | inr _ => None
                          end
                      | None => None
                      end in
                  runChecked env
                    (checkoutCommands env pullRequest baseRemote headRemote) []
              end
          end
      end
  end.


(** A fork's pull request opened from the fork's default branch, in a clone
    that has the remote [origin] for the base repository and none for the
    fork; every git command succeeds and no local branch exists yet. *)
Definition forkRepo : Repo :=
  {| RepoName := "cli"; OwnerLogin := "monalisa"; DefaultBranch := "master" |}.

Definition baseRepo : Repo :=
  {| RepoName := "cli"; OwnerLogin := "github"; DefaultBranch := "master" |}.

Definition forkPullRequest : PullRequest :=
  {| PrNumber := 42; HeadRef := "master"; HeadRepo := Some forkRepo;
     BaseRepo := baseRepo; MaintainerCanModify := false; IsSameRepo := false |}.

Definition forkEnv : Env :=
  {| lookupPullRequest := fun _ => inl forkPullRequest;
     LocalRepo := inl (fun repo =>
                         if (OwnerLogin repo =? "github")%string then inl "origin"
                         else inr (errorString "could not find a git remote"));
     gitRun := fun _ => None;
     gitHasFile := fun _ => false;
     GitURL := fun owner name => "https://github.com/" ++ owner ++ "/" ++ name ++ ".git" |}.

End Pr.

(** ** The table printer *)

Module Tableprinter.

(** The closure [paddingFunc] of [NewWithWriter]. *)
Definition paddingFunc (width : Z) (text : string) : string :=
  let l := Z.of_nat (String.length text) in
  if l <? width then text ++ Strings.Repeat " " (Z.to_nat (width - l))
  else text.

End Tableprinter.

(** ** The remotes of the package [git] *)

Module Git.

(** The last element of a slice, when it has one. *)
Fixpoint lastOf {A : Type} (l : list A) : option A :=
  match l with
  | [] => None
  | [x] => Some x
  | _ :: rest => lastOf rest
  end.

(** An assignment through a pointer to the last element of a slice. *)
Fixpoint updateLast {A : Type} (f : A -> A) (l : list A) : list A :=
  match l with
  | [] => []
  | [x] => [f x]
  | x :: rest => x :: updateLast f rest
  end.

(** A list of names with every run of equal neighbours reduced to one. *)
Fixpoint uniqAdjacent (names : list string) : list string :=
  match names with
  | [] => []
  | a :: rest =>
      match rest with
      | b :: _ => if (a =? b)%string then uniqAdjacent rest else a :: uniqAdjacent rest
      | [] => [a]
      end
  end.

Section Remotes.
(** [*url.URL] *)
Variable URL : Type.
(** [remoteRE.FindStringSubmatch], reduced to its three groups;
    [strings.TrimSpace]; and [ParseURL], a function of the package that is
    not among the sources. *)
Variable FindStringSubmatch : string -> option (string * string * string).
Variable TrimSpace : string -> string.
Variable ParseURL : string -> URL + error.

(** [Remote] *)
Record Remote : Type := {
  Name : string;
  Resolved : string;
  FetchURL : option URL;
  PushURL : option URL
}.

(** [&Remote{Name: name}] *)
Definition newRemote (name : string) : Remote :=
  {| Name := name; Resolved := EmptyString; FetchURL := None; PushURL := None |}.

Definition setFetchURL (u : URL) (rem : Remote) : Remote :=
  {| Name := Name rem; Resolved := Resolved rem;
     FetchURL := Some u; PushURL := PushURL rem |}.

Definition setPushURL (u : URL) (rem : Remote) : Remote :=
  {| Name := Name rem; Resolved := Resolved rem;
     FetchURL := FetchURL rem; PushURL := Some u |}.

Definition setResolved (value : string) (rem : Remote) : Remote :=
  {| Name := Name rem; Resolved := value;
     FetchURL := FetchURL rem; PushURL := PushURL rem |}.

(** One round of the loop of [parseRemotes] on the line [r]. The pointer
    [rem] is the last remote when it has the name of the line and a new
    remote appended to the slice otherwise, so it always points to the last
    element when the URL is assigned. *)
Definition parseRemotesStep (remotes : list Remote) (r : string) : list Remote :=
  match FindStringSubmatch r with
  | None => remotes
  | Some (group1, group2, group3) =>
      let name := TrimSpace group1 in
      let urlStr := TrimSpace group2 in
      let urlType := TrimSpace group3 in
      let remotes1 :=
        match lastOf remotes with
        | Some rem =>
            if (name =? Name rem)%string then remotes
            else (remotes ++ [newRemote name])%list
        | None => (remotes ++ [newRemote name])%list
        end in
      match ParseURL urlStr with
      | inr _ => remotes1
      | inl u =>
          if (urlType =? "fetch")%string then updateLast (setFetchURL u) remotes1
          else if (urlType =? "push")%string then updateLast (setPushURL u) remotes1
          else remotes1
      end
  end.

(** [parseRemotes] *)
Definition parseRemotes (gitRemotes : list string) : list Remote :=
  fold_left parseRemotesStep gitRemotes [].

(** The inner loop of [Remotes]: the first remote of that name takes the
    resolution. *)
Fixpoint resolveFirst (name value : string) (remotes : list Remote) : list Remote :=
  match remotes with
  | [] => []
  | r :: rest =>
      if (Name r =? name)%string then setResolved value r :: rest
      else r :: resolveFirst name value rest
  end.

(** One round of the outer loop of [Remotes] on the configuration line [l]. *)
Definition resolveStep (remotes : list Remote) (l : string) : list Remote :=
  match Strings.SplitN l " " 2 with
  | [key; value] =>
      match Strings.SplitN key "." 3 with
      | _ :: name :: _ => resolveFirst name value remotes
      | _ => remotes
      end
  | _ => remotes
  end.

(** [Remotes]; [listRemotes] is the result of the function of that name and
    [configLines] the lines that [outputLines] makes of the output of
    [git config --get-regexp], whose error is dropped. *)
Definition Remotes (listRemotes : list string + error) (configLines : list string)
  : list Remote + error :=
  match listRemotes with
  | inr err => inr err
  | inl list => inl (fold_left resolveStep configLines (parseRemotes list))
  end.

(** The names that the lines matched by the expression carry, in order. *)
Definition matchedNames (gitRemotes : list string) : list string :=
  flat_map (fun r =>
              match FindStringSubmatch r with
              | Some (group1, _, _) => [TrimSpace group1]
              | None => []
              end) gitRemotes.
(** What a line does to the list of names of the remotes: nothing when it
    does not match or names the last remote again, one more name otherwise. *)
Definition pushName (ns : list string) (r : string) : list string :=
  match FindStringSubmatch r with
  | None => ns
  | Some (group1, _, _) =>
      match lastOf ns with
      | Some n => if (TrimSpace group1 =? n)%string then ns
                  else (ns ++ [TrimSpace group1])%list
      | None => (ns ++ [TrimSpace group1])%list
      end
  end.
(** That the URLs of a remote come from lines of [gitRemotes] that carry
    its name: its fetch URL from a line of type [fetch], its push URL from
    a line of type [push], each being what [ParseURL] makes of the URL text
    of that line. *)
Definition urlFrom (gitRemotes : list string) (urlType name : string) (u : URL) : Prop :=
  exists r group1 group2 group3,
    In r gitRemotes
    /\ FindStringSubmatch r = Some (group1, group2, group3)
    /\ TrimSpace group1 = name
    /\ TrimSpace group3 = urlType
    /\ ParseURL (TrimSpace group2) = inl u.

Definition attributed (gitRemotes : list string) (rem : Remote) : Prop :=
  (forall u, FetchURL rem = Some u -> urlFrom gitRemotes "fetch" (Name rem) u)
  /\ (forall u, PushURL rem = Some u -> urlFrom gitRemotes "push" (Name rem) u).
End Remotes.

Arguments Name {URL} _.
Arguments Resolved {URL} _.
Arguments FetchURL {URL} _.
Arguments PushURL {URL} _.

End Git.

(** ** The reference help of the package [root] *)

Module Root.

(** A [*cobra.Command], as [cmdRef] reads it: the fields [Use], [Short] and
    [Hidden], and the answers of the methods [HasPersistentFlags], [HasFlags],
    [Flags().FlagUsages()], [PersistentFlags().FlagUsages()],
    [HasAvailableSubCommands] and [Commands]. *)
#[local] Set Warnings "-register-all".
Inductive Command : Type :=
| mkCommand (Use Short : string) (Hidden : bool)
    (HasPersistentFlags HasFlags : bool)
    (FlagUsages PersistentFlagUsages : string)
    (HasAvailableSubCommands : bool)
    (Commands : list Command).

(** The loop over the lines of a usage text: every line that is not empty,
    followed by a blank line. *)
Fixpoint usageLines (lines : list string) : string :=
  match lines with
  | [] => EmptyString
  | fu :: rest =>
      if (fu =? EmptyString)%string then usageLines rest
      else fu ++ Strings.newline ++ Strings.newline ++ usageLines rest
  end.

(** [cmdRef]; the colour scheme it is given is not used. *)
Fixpoint cmdRef (cmd : Command) (lvl : Z) : string :=
  match cmd with
  | mkCommand use short hidden hasPersistentFlags hasFlags flagUsages
      persistentFlagUsages hasAvailableSubCommands subcommands =>
      if hidden then EmptyString
      else
        let cmdPrefix := if lvl >? 0 then "###" else "##" in
        let escaped := Strings.ReplaceAllByte use "<" "&lt;" in
        let escaped := Strings.ReplaceAllByte escaped ">" "&gt;" in
        let ref := cmdPrefix ++ " " ++ escaped ++ Strings.newline ++ Strings.newline in
        let ref := ref ++ short ++ Strings.newline ++ Strings.newline in
        let ref :=
          if hasPersistentFlags || hasFlags then
            ref ++ usageLines (Strings.SplitByte flagUsages "010")
                ++ usageLines (Strings.SplitByte persistentFlagUsages "010")
                ++ Strings.newline
          else if hasAvailableSubCommands then ref ++ Strings.newline
          else ref in
        let ref :=
          ref ++ (fix subcommandRefs (cs : list Command) : string :=
                    match cs with
                    | [] => EmptyString
                    | c :: rest => cmdRef c (lvl + 1) ++ subcommandRefs rest
                    end) subcommands in
        match subcommands with
        | [] => ref ++ Strings.newline
        | _ :: _ => ref
        end
  end.

(** Whether a text holds an angle bracket. *)
Definition hasAngle (s : string) : bool :=
  Strings.hasByte "<" s || Strings.hasByte ">" s.

(** Whether no description and no flag usage of the commands shown holds an
    angle bracket. *)
Fixpoint plainTexts (cmd : Command) : bool :=
  match cmd with
  | mkCommand _ short hidden _ _ flagUsages persistentFlagUsages _ subcommands =>
      hidden
      || (negb (hasAngle short) && negb (hasAngle flagUsages)
          && negb (hasAngle persistentFlagUsages)
          && forallb plainTexts subcommands)
  end.

(** That a text ends with an empty line. *)
Definition endsWithBlankLine (s : string) : Prop :=
  exists body, s = body ++ Strings.newline ++ Strings.newline.

(** That a text starts as a heading with the marker [marker]: the marker,
    a blank, and the rest. *)
Definition startsAsHeading (marker s : string) : Prop :=
  exists rest, s = marker ++ " " ++ rest.

End Root.

(** * Theorems *)

Lemma nonEmpty_true (s : string) : nonEmpty s = true <-> s <> EmptyString.
Proof.
  unfold nonEmpty. rewrite negb_true_iff. split.
  - intros H E. subst s. discriminate H.
  - intros H. apply String.eqb_neq. exact H.
Qed.

Lemma nonEmpty_false (s : string) : nonEmpty s = false <-> s = EmptyString.
Proof.
  unfold nonEmpty. rewrite negb_false_iff. apply String.eqb_eq.
Qed.

(** A ready record has its four connection fields filled in. *)
Lemma connectionReady_fields (codespace : Codespace) :
  connectionReady codespace = true ->
  SessionID (Connection codespace) <> EmptyString
  /\ SessionToken (Connection codespace) <> EmptyString
  /\ RelayEndpoint (Connection codespace) <> EmptyString
  /\ RelaySAS (Connection codespace) <> EmptyString.
Proof.
  unfold connectionReady.
  rewrite !andb_true_iff, !nonEmpty_true. tauto.
Qed.

(** C1. The readiness predicate holds exactly when the session id, the session
    token, the relay endpoint and the relay shared-access credential are all
    non-empty and the state is Available; it fails exactly when one of the
    four fields is empty or the state is another one. *)
Theorem connectionReady_iff (codespace : Codespace) :
  (connectionReady codespace = true <->
     SessionID (Connection codespace) <> EmptyString /\
     SessionToken (Connection codespace) <> EmptyString /\
     RelayEndpoint (Connection codespace) <> EmptyString /\
     RelaySAS (Connection codespace) <> EmptyString /\
     State codespace = CodespaceStateAvailable)
  /\
  (connectionReady codespace = false <->
     SessionID (Connection codespace) = EmptyString \/
     SessionToken (Connection codespace) = EmptyString \/
     RelayEndpoint (Connection codespace) = EmptyString \/
     RelaySAS (Connection codespace) = EmptyString \/
     State codespace <> CodespaceStateAvailable).
Proof.
  unfold connectionReady. split.
  - rewrite !andb_true_iff, !nonEmpty_true, String.eqb_eq. tauto.
  - rewrite !andb_false_iff, !nonEmpty_false, String.eqb_neq. tauto.
Qed.

(** ** The retry loop *)

(** The loop of [backoff.Retry] as the package writes it: one attempt, then
    the answer of the context-aware policy decides. *)
Lemma Retry_asks_ctxNextBackOff
    {S logger A : Type}
    (operation : A -> World S logger -> option error * A * World S logger)
    (ctx : Context) (schedule : list Z) (a : A) (w : World S logger) :
  Retry operation ctx schedule a w
  = let '(r, a1, w1) := operation a w in
    match r with
    | None => (None, schedule, a1, w1)
    | Some err =>
        match asPermanent err with
        | Some inner => (Some inner, schedule, a1, w1)
        | None =>
            let '(next, schedule1) := ctxNextBackOff ctx (now w1) schedule in
            if next =? Stop then
              match ctxErr ctx (now w1) with
              | Some cerr => (Some cerr, schedule1, a1, w1)
              | None => (Some err, schedule1, a1, w1)
              end
            else
              match sleep ctx next w1 with
              | (Some cerr, w2) => (Some cerr, schedule1, a1, w2)
              | (None, w2) => Retry operation ctx schedule1 a1 w2
              end
        end
    end.
Proof.
  destruct schedule as [|next rest]; cbn [Retry];
    destruct (operation a w) as [[[err|] a1] w1]; try reflexivity;
    destruct (asPermanent err); try reflexivity;
    unfold ctxNextBackOff, ctxDone;
    destruct (ctxErr ctx (now w1)); cbn [NextBackOff]; reflexivity.
Qed.

(** ** [ConnectToLiveshare] *)

Section ConnectToLiveshareFacts.
Context {S logger Session : Type}.
Variable api : apiClient S.
Variable liveshareConnect : Context -> Z -> Options logger -> option Session * option error.

Lemma State_available_eqb (codespace : Codespace) :
  State codespace = CodespaceStateAvailable ->
  (State codespace =? CodespaceStateAvailable)%string = true.
Proof. intros H. apply String.eqb_eq. exact H. Qed.

Lemma ready_is_available (codespace : Codespace) :
  connectionReady codespace = true ->
  (State codespace =? CodespaceStateAvailable)%string = true.
Proof.
  unfold connectionReady. rewrite !andb_true_iff. tauto.
Qed.

(** The first attempt of the retry loop on a ready record: the operation
    returns [nil] at once and the policy is never asked. *)
Lemma Retry_ready (ctx : Context) (schedule : list Z)
    (codespace : Codespace) (w : World S logger) :
  connectionReady codespace = true ->
  Retry (operation api ctx) ctx schedule codespace w
  = (None, schedule, codespace, w).
Proof.
  intros Hready. destruct schedule; simpl; unfold operation;
    rewrite Hready; reflexivity.
Qed.
End ConnectToLiveshareFacts.

(** C5. A record that is already ready is connected to directly: the call
    makes no [StartCodespace] and no [GetCodespace] round trip, leaves the API
    client untouched, and opens the session with the connection data of that
    very record: the session id, the session token, the relay credential, the
    relay endpoint and the host keys given to [liveshare.Connect] are the
    fields of the record's [Connection], none of them empty among the first
    four, and the logger is the one passed in. *)
Theorem ready_record_needs_no_round_trip
    {S logger Session : Type} (api : apiClient S)
    (liveshareConnect : Context -> Z -> Options logger -> option Session * option error)
    (ctx : Context) (sessionLogger : logger) (schedule : list Z)
    (codespace : Codespace) (w : World S logger) :
  connectionReady codespace = true ->
  let opts :=
    {| optSessionID := SessionID (Connection codespace);
       optSessionToken := SessionToken (Connection codespace);
       optRelaySAS := RelaySAS (Connection codespace);
       optRelayEndpoint := RelayEndpoint (Connection codespace);
       optHostPublicKeys := HostPublicKeys (Connection codespace);
       optLogger := sessionLogger |} in
  let calls :=
    [StartProgressIndicatorWithLabel "Connecting to codespace";
     CallConnect opts;
     StopProgressIndicator] in
  ConnectToLiveshare api liveshareConnect ctx sessionLogger schedule codespace w
  = (liveshareConnect ctx (now w) opts,
     {| now := now w; client := client w; trace := trace w ++ calls |})
  /\ filter isApiCall calls = []
  /\ optSessionID opts <> EmptyString
  /\ optSessionToken opts <> EmptyString
  /\ optRelaySAS opts <> EmptyString
  /\ optRelayEndpoint opts <> EmptyString.
Proof.
  intros Hready opts calls.
  split; [|split; [reflexivity|]].
  2: { apply connectionReady_fields in Hready.
       destruct Hready as (Hid & Htoken & Hendpoint & Hsas).
       unfold opts. cbn [optSessionID optSessionToken optRelaySAS optRelayEndpoint].
       repeat split; assumption. }
  change opts with (optionsOf sessionLogger codespace).
  unfold ConnectToLiveshare.
  rewrite (ready_is_available _ Hready). cbn [negb].
  rewrite (Retry_ready api ctx schedule codespace w Hready).
  cbn [runDeferred]. unfold emit, calls. cbn [now client trace].
  rewrite <- !app_assoc. reflexivity.
Qed.

(** A ready record given with a client that would refuse a start request:
    the session is opened with the record's own connection data, and the
    client is never called. *)
Lemma ready_record_needs_no_round_trip_witness :
  let opts :=
    {| optSessionID := "session-id";
       optSessionToken := "session-token";
       optRelaySAS := "relay-sas";
       optRelayEndpoint := "sb://relay.example";
       optHostPublicKeys := ["host-key"];
       optLogger := tt |} in
  connectionReady Scripted.readyCodespace = true
  /\ ConnectToLiveshare (Scripted.scripted Scripted.startRefused)
       Scripted.echoConnect Background tt [500] Scripted.readyCodespace
       Scripted.world0
     = ((Some opts, None),
        {| now := 0; client := 0%nat;
           trace := [StartProgressIndicatorWithLabel "Connecting to codespace";
                     CallConnect opts;
                     StopProgressIndicator] |}).
Proof.
  cbv zeta. split.
  - reflexivity.
  - exact (proj1 (ready_record_needs_no_round_trip
                    (Scripted.scripted Scripted.startRefused) Scripted.echoConnect
                    Background tt [500] Scripted.readyCodespace Scripted.world0
                    eq_refl)).
Defined.

(** C6. When the record is not Available at entry and the start request
    fails, the function returns at once with no session and the start failure
    wrapped as [error starting codespace: ...]; the only round trip is the
    start request, no fetch follows, and the failure itself stays reachable
    through [errors.Unwrap]. *)
Theorem failed_start_is_permanent
    {S logger Session : Type} (api : apiClient S)
    (liveshareConnect : Context -> Z -> Options logger -> option Session * option error)
    (ctx : Context) (sessionLogger : logger) (schedule : list Z)
    (codespace : Codespace) (w : World S logger)
    (err : error) (took : Z) (s' : S) :
  State codespace <> CodespaceStateAvailable ->
  StartCodespace api (client w) ctx (now w) (Name codespace) = (Some err, took, s') ->
  let failure := Errorf_w "error starting codespace: " err in
  ConnectToLiveshare api liveshareConnect ctx sessionLogger schedule codespace w
  = ((None, Some failure),
     {| now := now w + Z.max 0 took;
        client := s';
        trace := trace w ++
          [StartProgressIndicatorWithLabel "Starting codespace";
           CallStartCodespace (Name codespace);
           StopProgressIndicator] |})
  /\ Unwrap failure = Some err
  /\ Error failure = "error starting codespace: " ++ Error err.
Proof.
  intros Hstate Hstart failure. split; [|split; reflexivity].
  unfold ConnectToLiveshare.
  apply String.eqb_neq in Hstate. rewrite Hstate. cbn [negb].
  unfold callStartCodespace, emit. cbn [now client trace].
  rewrite Hstart. cbn [runDeferred]. unfold emit. cbn [now client trace].
  rewrite <- !app_assoc. reflexivity.
Qed.

(** A codespace that is shut down and whose start request is refused. *)
Lemma failed_start_is_permanent_witness :
  State Scripted.shutdownCodespace <> CodespaceStateAvailable
  /\ ConnectToLiveshare (Scripted.scripted Scripted.startRefused)
       Scripted.echoConnect Background tt [500] Scripted.shutdownCodespace
       Scripted.world0
     = ((None,
         Some (wrapError "error starting codespace: " (errorString "HTTP 503"))),
        {| now := 100; client := 0%nat;
           trace := [StartProgressIndicatorWithLabel "Starting codespace";
                     CallStartCodespace "monalisa-cli";
                     StopProgressIndicator] |}).
Proof.
  assert (Hstate : State Scripted.shutdownCodespace <> CodespaceStateAvailable)
    by discriminate.
  split.
  - exact Hstate.
  - exact (proj1 (failed_start_is_permanent
                    (Scripted.scripted Scripted.startRefused) Scripted.echoConnect
                    Background tt [500] Scripted.shutdownCodespace Scripted.world0
                    (errorString "HTTP 503") 100 0%nat Hstate eq_refl)).
Defined.

Section WaitFacts.
Context {S logger : Type}.
Variable api : apiClient S.

Lemma ctxErr_never (ctx : Context) (t : Z) :
  doneAt ctx = None -> ctxErr ctx t = None.
Proof. unfold ctxErr. intros ->. reflexivity. Qed.

Lemma sleep_never (ctx : Context) (next : Z) (w : World S logger) :
  doneAt ctx = None ->
  sleep ctx next w
  = (None, {| now := now w + Z.max 0 next; client := client w; trace := trace w |}).
Proof. unfold sleep. intros ->. reflexivity. Qed.

(** One attempt on a record that is not ready, with a client that answers
    with another record that is not ready. *)
Lemma operation_still_not_ready (ctx : Context) (codespace : Codespace)
    (w : World S logger) :
  stillNotReady api ctx ->
  connectionReady codespace = false ->
  exists fetched w1,
    operation api ctx codespace w
    = (Some (errorString "codespace not ready yet"), fetched, w1)
    /\ connectionReady fetched = false
    /\ client w1 = snd (GetCodespace api (client w) ctx (now w) (Name codespace) true)
    /\ trace w1 = (trace w ++ [CallGetCodespace (Name codespace) true])%list.
Proof.
  intros Hget Hnot. unfold operation. rewrite Hnot.
  destruct (Hget (client w) (now w) (Name codespace) true)
    as (fetched & took & s' & Hcall & Hfetched).
  unfold callGetCodespace. rewrite Hcall.
  eexists; eexists. split; [reflexivity|].
  split; [exact Hfetched|]. split; reflexivity.
Qed.

(** With a context that is never done and a policy that waits until it is
    used up, the loop fetches once per wait and once more, and ends with
    the transient error and nothing left of the policy. *)
Lemma Retry_until_exhausted (ctx : Context) (schedule : list Z) :
  doneAt ctx = None ->
  stillNotReady api ctx ->
  Forall (fun next => next <> Stop) schedule ->
  forall (codespace : Codespace) (w : World S logger),
    connectionReady codespace = false ->
    exists fetched w',
      Retry (operation api ctx) ctx schedule codespace w
      = (Some (errorString "codespace not ready yet"), [], fetched, w')
      /\ length (filter isGetCodespace (trace w'))
         = (length (filter isGetCodespace (trace w)) + length schedule + 1)%nat.
Proof.
  intros Hctx Hget Hwaits.
  induction Hwaits as [|next rest Hnext Hrest IH]; intros codespace w Hnot.
  - destruct (operation_still_not_ready ctx codespace w Hget Hnot)
      as (fetched & w1 & Hop & _ & _ & Htrace).
    exists fetched, w1. cbn [Retry]. rewrite Hop. cbn [asPermanent].
    rewrite (ctxErr_never ctx _ Hctx). split; [reflexivity|].
    rewrite Htrace, filter_app, length_app. cbn. lia.
  - destruct (operation_still_not_ready ctx codespace w Hget Hnot)
      as (fetched & w1 & Hop & Hfetched & _ & Htrace).
    cbn [Retry]. rewrite Hop. cbn [asPermanent].
    rewrite (ctxErr_never ctx _ Hctx).
    apply Z.eqb_neq in Hnext. rewrite Hnext.
    rewrite (sleep_never ctx next w1 Hctx).
    destruct (IH fetched
                {| now := now w1 + Z.max 0 next; client := client w1;
                   trace := trace w1 |} Hfetched)
      as (fetched' & w' & Hloop & Hcount).
    exists fetched', w'. split; [exact Hloop|].
    rewrite Hcount. cbn [trace length].
    rewrite Htrace, filter_app, length_app. cbn. lia.
Qed.

Lemma runDeferred_trace (n : nat) (w : World S logger) :
  trace (runDeferred n w) = (trace w ++ repeat StopProgressIndicator n)%list.
Proof.
  revert w. induction n as [|n IH]; intros w; cbn [runDeferred repeat].
  - now rewrite app_nil_r.
  - rewrite IH. unfold emit. cbn [trace]. now rewrite <- app_assoc.
Qed.

Lemma filter_isGet_stops (n : nat) :
  filter (@isGetCodespace logger) (repeat StopProgressIndicator n) = [].
Proof. induction n as [|n IH]; cbn; [reflexivity|exact IH]. Qed.
End WaitFacts.

(** What does hold of an exhausted wait, for a policy that keeps answering
    [Stop] once it has answered it (here: a schedule of waits, used up by the
    loop): with a context that is never done and every fetch answering a
    record that is not ready, [ConnectToLiveshare] returns no session and the
    error [timed out while waiting for the codespace to start], after one
    fetch per wait and one more. The text of that error is neither the
    transient [codespace not ready yet] nor that of a wrapped start or fetch
    failure nor that of a context error. *)
Lemma exhausted_wait_times_out
    {S logger Session : Type} (api : apiClient S)
    (liveshareConnect : Context -> Z -> Options logger -> option Session * option error)
    (ctx : Context) (sessionLogger : logger) (schedule : list Z)
    (codespace : Codespace) (w : World S logger) :
  doneAt ctx = None ->
  stillNotReady api ctx ->
  connectionReady codespace = false ->
  fst (fst (StartCodespace api (client w) ctx (now w) (Name codespace))) = None ->
  Forall (fun next => next <> Stop) schedule ->
  let run :=
    ConnectToLiveshare api liveshareConnect ctx sessionLogger schedule codespace w in
  fst run = (None, Some timedOut)
  /\ length (filter isGetCodespace (trace (snd run)))
     = (length (filter isGetCodespace (trace w)) + length schedule + 1)%nat
  /\ Error timedOut = "timed out while waiting for the codespace to start"
  /\ Error timedOut <> Error (errorString "codespace not ready yet")
  /\ (forall e, Error timedOut <> Error (Errorf_w "error starting codespace: " e))
  /\ (forall e, Error timedOut <> Error (Errorf_w "error getting codespace: " e))
  /\ Error timedOut <> Error Canceled
  /\ Error timedOut <> Error DeadlineExceeded.
Proof.
  intros Hctx Hget Hnot Hstart Hwaits run.
  assert (Htexts :
    Error timedOut = "timed out while waiting for the codespace to start"
    /\ Error timedOut <> Error (errorString "codespace not ready yet")
    /\ (forall e, Error timedOut <> Error (Errorf_w "error starting codespace: " e))
    /\ (forall e, Error timedOut <> Error (Errorf_w "error getting codespace: " e))
    /\ Error timedOut <> Error Canceled
    /\ Error timedOut <> Error DeadlineExceeded).
  { repeat split; try discriminate; intros e; cbn; discriminate. }
  cut (fst run = (None, Some timedOut)
       /\ length (filter isGetCodespace (trace (snd run)))
          = (length (filter isGetCodespace (trace w)) + length schedule + 1)%nat).
  { tauto. }
  clear Htexts. unfold run, ConnectToLiveshare.
  destruct (negb (State codespace =? CodespaceStateAvailable)%string) eqn:Hstate.
  - unfold callStartCodespace, emit. cbn [now client trace].
    destruct (StartCodespace api (client w) ctx (now w) (Name codespace))
      as [[r took] s'] eqn:Hcall.
    cbn [fst] in Hstart. subst r.
    match goal with
    | |- context [Retry ?op ctx schedule codespace ?w1] =>
        destruct (Retry_until_exhausted api ctx schedule Hctx Hget Hwaits codespace w1 Hnot)
          as (fetched & w' & Hloop & Hcount)
    end.
    rewrite Hloop. unfold ctxNextBackOff, ctxDone.
    rewrite (ctxErr_never ctx _ Hctx). cbn [NextBackOff fst].
    rewrite Z.eqb_refl. cbn [fst snd]. split; [reflexivity|].
    rewrite runDeferred_trace, filter_app, length_app, filter_isGet_stops.
    rewrite Hcount. cbn [trace]. rewrite !filter_app, !length_app. cbn. lia.
  - destruct (Retry_until_exhausted api ctx schedule Hctx Hget Hwaits codespace w Hnot)
      as (fetched & w' & Hloop & Hcount).
    rewrite Hloop. unfold ctxNextBackOff, ctxDone.
    rewrite (ctxErr_never ctx _ Hctx). cbn [NextBackOff fst].
    rewrite Z.eqb_refl. cbn [fst snd]. split; [reflexivity|].
    rewrite runDeferred_trace, filter_app, length_app, filter_isGet_stops.
    rewrite Hcount. cbn. lia.
Qed.

Lemma neverReady_stillNotReady (ctx : Context) :
  stillNotReady (Scripted.scripted Scripted.neverReady) ctx.
Proof.
  intros s t name includeConnection.
  exists Scripted.startingCodespace, 100, (Datatypes.S s).
  split; [destruct s; reflexivity|reflexivity].
Qed.

(** A codespace that is started and stays in the state Starting, with a
    policy that allows two waits: three fetches, then the time-out error. *)
Lemma exhausted_wait_times_out_witness :
  connectionReady Scripted.shutdownCodespace = false
  /\ Forall (fun next => next <> Stop) [500; 550]
  /\ fst (ConnectToLiveshare (Scripted.scripted Scripted.neverReady)
            Scripted.echoConnect Background tt [500; 550]
            Scripted.shutdownCodespace Scripted.world0)
     = (None, Some timedOut).
Proof.
  assert (Hwaits : Forall (fun next => next <> Stop) [500; 550]).
  { repeat constructor; discriminate. }
  split; [reflexivity|]. split; [exact Hwaits|].
  exact (proj1 (exhausted_wait_times_out
                  (Scripted.scripted Scripted.neverReady) Scripted.echoConnect
                  Background tt [500; 550] Scripted.shutdownCodespace
                  Scripted.world0 eq_refl (neverReady_stillNotReady Background)
                  eq_refl eq_refl Hwaits)).
Defined.

(** The loop when the policy answers [Stop] after some waits: it ends with
    the transient error, and what the policy would answer next is left for
    whoever asks it again. *)
Lemma Retry_stopped_by_policy
    {S logger : Type} (api : apiClient S) (ctx : Context) (waits rest : list Z) :
  doneAt ctx = None ->
  stillNotReady api ctx ->
  Forall (fun next => next <> Stop) waits ->
  forall (codespace : Codespace) (w : World S logger),
    connectionReady codespace = false ->
    exists fetched w',
      Retry (operation api ctx) ctx (waits ++ Stop :: rest)%list codespace w
      = (Some (errorString "codespace not ready yet"), rest, fetched, w').
Proof.
  intros Hctx Hget Hwaits.
  induction Hwaits as [|next waits Hnext Hwaits IH]; intros codespace w Hnot.
  - destruct (operation_still_not_ready api ctx codespace w Hget Hnot)
      as (fetched & w1 & Hop & _).
    exists fetched, w1. rewrite app_nil_l. cbn [Retry]. rewrite Hop.
    cbn [asPermanent].
    rewrite (ctxErr_never ctx _ Hctx), Z.eqb_refl. reflexivity.
  - destruct (operation_still_not_ready api ctx codespace w Hget Hnot)
      as (fetched & w1 & Hop & Hfetched & _).
    rewrite <- app_comm_cons. cbn [Retry]. rewrite Hop. cbn [asPermanent].
    rewrite (ctxErr_never ctx _ Hctx).
    apply Z.eqb_neq in Hnext. rewrite Hnext.
    rewrite (sleep_never ctx next w1 Hctx).
    exact (IH fetched _ Hfetched).
Qed.

(** The defect behind C4, for every client and policy: the environment is
    still not ready, the context is never done, the policy answers [Stop] to
    the loop after some waits, and answers a wait again when
    [ConnectToLiveshare] asks it whether the time is up. The transient error
    of the loop is returned in place of the time-out error. *)
Lemma stop_then_wait_reports_not_ready
    {S logger Session : Type} (api : apiClient S)
    (liveshareConnect : Context -> Z -> Options logger -> option Session * option error)
    (ctx : Context) (sessionLogger : logger) (waits : list Z) (next : Z)
    (rest : list Z) (codespace : Codespace) (w : World S logger) :
  doneAt ctx = None ->
  stillNotReady api ctx ->
  connectionReady codespace = false ->
  fst (fst (StartCodespace api (client w) ctx (now w) (Name codespace))) = None ->
  Forall (fun wait => wait <> Stop) waits ->
  next <> Stop ->
  fst (ConnectToLiveshare api liveshareConnect ctx sessionLogger
         (waits ++ Stop :: next :: rest)%list codespace w)
  = (None, Some (errorString "codespace not ready yet")).
Proof.
  intros Hctx Hget Hnot Hstart Hwaits Hnext.
  apply Z.eqb_neq in Hnext.
  unfold ConnectToLiveshare.
  destruct (negb (State codespace =? CodespaceStateAvailable)%string).
  - unfold callStartCodespace, emit. cbn [now client trace].
    destruct (StartCodespace api (client w) ctx (now w) (Name codespace))
      as [[r took] s'] eqn:Hcall.
    cbn [fst] in Hstart. subst r.
    match goal with
    | |- context [Retry ?op ctx ?schedule codespace ?w1] =>
        destruct (Retry_stopped_by_policy api ctx waits (next :: rest)
                    Hctx Hget Hwaits codespace w1 Hnot)
          as (fetched & w' & Hloop)
    end.
    rewrite Hloop. unfold ctxNextBackOff, ctxDone.
    rewrite (ctxErr_never ctx _ Hctx). cbn [NextBackOff fst].
    rewrite Hnext. reflexivity.
  - destruct (Retry_stopped_by_policy api ctx waits (next :: rest)
                Hctx Hget Hwaits codespace w Hnot)
      as (fetched & w' & Hloop).
    rewrite Hloop. unfold ctxNextBackOff, ctxDone.
    rewrite (ctxErr_never ctx _ Hctx). cbn [NextBackOff fst].
    rewrite Hnext. reflexivity.
Qed.

(** C4, where the code departs from the claim. The context is never done
    and the codespace stays in the state Starting. The policy answers a wait
    of 500 ms, then [Stop]: the interval it has drawn no longer fits into the
    time that is left, the wait is exhausted, and the retry loop ends with
    the transient [codespace not ready yet]. [ConnectToLiveshare] then asks
    the policy once more to find out whether the time is up; the policy draws
    a shorter interval that does fit and answers a wait of 300 ms, so the
    function returns the transient error of the loop and not [timed out while
    waiting for the codespace to start]. With a policy that answers [Stop]
    again the same run gives the time-out error, which is also what a run
    cancelled during a wait returns: the caller cannot tell the exhausted
    wait from the other failures either way. *)
Theorem exhausted_wait_reports_not_ready :
  let api := Scripted.scripted Scripted.neverReady in
  let afterStart : World nat unit :=
    {| now := 100; client := 0%nat;
       trace := [StartProgressIndicatorWithLabel "Starting codespace";
                 CallStartCodespace "monalisa-cli"] |} in
  let loop :=
    Retry (operation api Background) Background [500; Stop; 300]
      Scripted.shutdownCodespace afterStart in
  let run :=
    ConnectToLiveshare api Scripted.echoConnect Background tt [500; Stop; 300]
      Scripted.shutdownCodespace Scripted.world0 in
  let persisting :=
    ConnectToLiveshare api Scripted.echoConnect Background tt [500; Stop; Stop]
      Scripted.shutdownCodespace Scripted.world0 in
  let cancelled :=
    ConnectToLiveshare api Scripted.echoConnect (CancelledAt 400) tt [500; 550; 605]
      Scripted.shutdownCodespace Scripted.world0 in
  fst (fst loop) = (Some (errorString "codespace not ready yet"), [300])
  /\ now (snd loop) = 800
  /\ fst run = (None, Some (errorString "codespace not ready yet"))
  /\ fst run <> (None, Some timedOut)
  /\ trace (snd run)
     = [StartProgressIndicatorWithLabel "Starting codespace";
        CallStartCodespace "monalisa-cli";
        CallGetCodespace "monalisa-cli" true;
        CallGetCodespace "monalisa-cli" true;
        StopProgressIndicator]
  /\ fst persisting = (None, Some timedOut)
  /\ fst cancelled = fst persisting.
Proof.
  cbv zeta.
  assert (Hrun :
    fst (ConnectToLiveshare (Scripted.scripted Scripted.neverReady)
           Scripted.echoConnect Background tt [500; Stop; 300]
           Scripted.shutdownCodespace Scripted.world0)
    = (None, Some (errorString "codespace not ready yet"))).
  { apply (stop_then_wait_reports_not_ready
             (Scripted.scripted Scripted.neverReady) Scripted.echoConnect
             Background tt [500] 300 [] Scripted.shutdownCodespace Scripted.world0);
      try reflexivity.
    - apply neverReady_stillNotReady.
    - repeat constructor; discriminate.
    - discriminate. }
  split; [vm_compute; reflexivity|].
  split; [vm_compute; reflexivity|].
  split; [exact Hrun|].
  split; [rewrite Hrun; discriminate|].
  split; [vm_compute; reflexivity|].
  split; vm_compute; reflexivity.
Qed.

(** What the retry loop gives when the first fetch fails: the wrapped fetch
    failure, after that single fetch and without asking the policy. *)
Lemma Retry_failed_fetch
    {S logger : Type} (api : apiClient S) (ctx : Context) (schedule : list Z)
    (codespace : Codespace) (w : World S logger)
    (err : error) (took : Z) (s' : S) :
  connectionReady codespace = false ->
  GetCodespace api (client w) ctx (now w) (Name codespace) true = (inr err, took, s') ->
  Retry (operation api ctx) ctx schedule codespace w
  = (Some (Errorf_w "error getting codespace: " err), schedule, codespace,
     {| now := now w + Z.max 0 took; client := s';
        trace := trace w ++ [CallGetCodespace (Name codespace) true] |}).
Proof.
  intros Hnot Hcall.
  destruct schedule; cbn [Retry]; unfold operation, callGetCodespace;
    rewrite Hnot, Hcall; reflexivity.
Qed.

(** Once the context is done, the policy wrapped by [backoff.WithContext]
    answers [Stop], whatever the exponential policy would say. *)
Lemma done_context_stops (ctx : Context) (t : Z) (schedule : list Z) :
  ctxDone ctx t = true -> fst (ctxNextBackOff ctx t schedule) = Stop.
Proof. unfold ctxNextBackOff. intros ->. reflexivity. Qed.

(** The defect behind C3 and C7, for every client and policy: on a record
    that is Available but not ready, when the first fetch fails and the
    context is done by the time the fetch returns, the time-out error is
    returned in place of the fetch failure. *)
Lemma failed_fetch_with_done_context
    {S logger Session : Type} (api : apiClient S)
    (liveshareConnect : Context -> Z -> Options logger -> option Session * option error)
    (ctx : Context) (sessionLogger : logger) (schedule : list Z)
    (codespace : Codespace) (w : World S logger)
    (err : error) (took : Z) (s' : S) :
  State codespace = CodespaceStateAvailable ->
  connectionReady codespace = false ->
  GetCodespace api (client w) ctx (now w) (Name codespace) true = (inr err, took, s') ->
  ctxDone ctx (now w + Z.max 0 took) = true ->
  fst (ConnectToLiveshare api liveshareConnect ctx sessionLogger schedule codespace w)
  = (None, Some timedOut).
Proof.
  intros Hstate Hnot Hcall Hdone. unfold ConnectToLiveshare.
  rewrite (State_available_eqb _ Hstate). cbn [negb].
  rewrite (Retry_failed_fetch api ctx schedule codespace w err took s' Hnot Hcall).
  cbn [now]. rewrite (done_context_stops ctx _ schedule Hdone).
  rewrite Z.eqb_refl. reflexivity.
Qed.

(** What does hold of a failed fetch: when the context is not done as the
    fetch returns and the policy's next answer is a wait, the loop's result is
    passed on, that is the fetch failure wrapped as [error getting codespace:
    ...], after that one fetch and nothing else. *)
Lemma failed_fetch_is_propagated
    {S logger Session : Type} (api : apiClient S)
    (liveshareConnect : Context -> Z -> Options logger -> option Session * option error)
    (ctx : Context) (sessionLogger : logger) (next : Z) (rest : list Z)
    (codespace : Codespace) (w : World S logger)
    (err : error) (took : Z) (s' : S) :
  State codespace = CodespaceStateAvailable ->
  connectionReady codespace = false ->
  GetCodespace api (client w) ctx (now w) (Name codespace) true = (inr err, took, s') ->
  ctxDone ctx (now w + Z.max 0 took) = false ->
  next <> Stop ->
  ConnectToLiveshare api liveshareConnect ctx sessionLogger (next :: rest) codespace w
  = ((None, Some (Errorf_w "error getting codespace: " err)),
     {| now := now w + Z.max 0 took; client := s';
        trace := trace w ++ [CallGetCodespace (Name codespace) true] |}).
Proof.
  intros Hstate Hnot Hcall Hdone Hnext. unfold ConnectToLiveshare.
  rewrite (State_available_eqb _ Hstate). cbn [negb].
  rewrite (Retry_failed_fetch api ctx (next :: rest) codespace w err took s' Hnot Hcall).
  cbn [now]. unfold ctxNextBackOff. rewrite Hdone. cbn [NextBackOff fst].
  apply Z.eqb_neq in Hnext. rewrite Hnext. reflexivity.
Qed.

(** The other face of the defect: on a record that is Available but not
    ready, when the first fetch answers a record that is not ready, the policy
    answers a wait, and the context is done before the wait is over, the loop
    ends with the context's error and the function returns the time-out
    error. *)
Lemma interrupted_wait_reports_time_out
    {S logger Session : Type} (api : apiClient S)
    (liveshareConnect : Context -> Z -> Options logger -> option Session * option error)
    (ctx : Context) (sessionLogger : logger) (next : Z) (rest : list Z)
    (codespace fetched : Codespace) (w : World S logger)
    (took : Z) (s' : S) (t : Z) :
  State codespace = CodespaceStateAvailable ->
  connectionReady codespace = false ->
  GetCodespace api (client w) ctx (now w) (Name codespace) true = (inl fetched, took, s') ->
  doneAt ctx = Some t ->
  now w + Z.max 0 took < t < now w + Z.max 0 took + Z.max 0 next ->
  next <> Stop ->
  let loop :=
    Retry (operation api ctx) ctx (next :: rest) codespace w in
  fst (fst (fst loop)) = Some (cause ctx)
  /\ now (snd loop) = t
  /\ fst (ConnectToLiveshare api liveshareConnect ctx sessionLogger (next :: rest)
            codespace w)
     = (None, Some timedOut).
Proof.
  intros Hstate Hnot Hcall Hctx Ht Hnext loop.
  assert (Hloop : loop
    = (Some (cause ctx), rest, fetched,
       {| now := t; client := s';
          trace := trace w ++ [CallGetCodespace (Name codespace) true] |})).
  { unfold loop. cbn [Retry]. unfold operation, callGetCodespace.
    rewrite Hnot, Hcall. cbn [asPermanent now].
    unfold ctxErr. rewrite Hctx.
    replace (t <=? now w + Z.max 0 took) with false by (symmetry; apply Z.leb_gt; lia).
    apply Z.eqb_neq in Hnext. rewrite Hnext.
    unfold sleep. rewrite Hctx. cbn [now client trace].
    replace (t <? now w + Z.max 0 took + Z.max 0 next) with true
      by (symmetry; apply Z.ltb_lt; lia).
    replace (Z.max (now w + Z.max 0 took) t) with t by lia.
    reflexivity. }
  split; [rewrite Hloop; reflexivity|]. split; [rewrite Hloop; reflexivity|].
  unfold ConnectToLiveshare.
  rewrite (State_available_eqb _ Hstate). cbn [negb].
  fold loop. rewrite Hloop. cbn [now].
  rewrite (done_context_stops ctx t rest).
  - rewrite Z.eqb_refl. reflexivity.
  - unfold ctxDone, ctxErr. rewrite Hctx, Z.leb_refl. reflexivity.
Qed.

(** C3, where the code departs from the claim. The context is cancelled at
    400 ms, during the first wait (100 ms for the start request, 100 ms for
    the first fetch, then a wait of 500 ms). The retry loop itself stops at
    once, at 400 ms, with [context canceled]; [ConnectToLiveshare] then asks
    the context-aware policy, which answers [Stop] because the context is
    done, and returns [timed out while waiting for the codespace to start],
    the very error of a run in which the policy is used up. *)
Theorem cancelled_wait_reports_time_out :
  let ctx := CancelledAt 400 in
  let afterStart : World nat unit :=
    {| now := 100; client := 0%nat;
       trace := [StartProgressIndicatorWithLabel "Starting codespace";
                 CallStartCodespace "monalisa-cli"] |} in
  let loop :=
    Retry (operation (Scripted.scripted Scripted.neverReady) ctx) ctx
      [500; 550; 605] Scripted.shutdownCodespace afterStart in
  let cancelled :=
    ConnectToLiveshare (Scripted.scripted Scripted.neverReady) Scripted.echoConnect
      ctx tt [500; 550; 605] Scripted.shutdownCodespace Scripted.world0 in
  let exhausted :=
    ConnectToLiveshare (Scripted.scripted Scripted.neverReady) Scripted.echoConnect
      Background tt [500] Scripted.shutdownCodespace Scripted.world0 in
  fst (fst (fst loop)) = Some Canceled
  /\ now (snd loop) = 400
  /\ fst cancelled = (None, Some timedOut)
  /\ fst exhausted = (None, Some timedOut)
  /\ trace (snd cancelled)
     = [StartProgressIndicatorWithLabel "Starting codespace";
        CallStartCodespace "monalisa-cli";
        CallGetCodespace "monalisa-cli" true;
        StopProgressIndicator].
Proof.
  cbv zeta. split; [|split; [|split; [|split]]].
  - reflexivity.
  - reflexivity.
  - vm_compute. reflexivity.
  - vm_compute. reflexivity.
  - vm_compute. reflexivity.
Qed.

(** C7, where the code departs from the claim. The context is cancelled at
    150 ms, while the first fetch is in flight, and the fetch fails with the
    context's error. The loop stops at once with the wrapped fetch failure
    and no retry; [ConnectToLiveshare] then asks the context-aware policy,
    which answers [Stop], and returns the time-out error in place of the
    fetch failure. The same happens with no cancellation when the fetch
    fails at the moment the policy is used up. *)
Theorem failed_fetch_reports_time_out :
  let ctx := CancelledAt 150 in
  let aborted := wrapError "Get /user/codespaces/monalisa-cli: " Canceled in
  let afterStart : World nat unit :=
    {| now := 100; client := 0%nat;
       trace := [StartProgressIndicatorWithLabel "Starting codespace";
                 CallStartCodespace "monalisa-cli"] |} in
  let loop :=
    Retry (operation (Scripted.scripted Scripted.fetchAborted) ctx) ctx
      [500; 550] Scripted.shutdownCodespace afterStart in
  let run :=
    ConnectToLiveshare (Scripted.scripted Scripted.fetchAborted) Scripted.echoConnect
      ctx tt [500; 550] Scripted.shutdownCodespace Scripted.world0 in
  let late :=
    ConnectToLiveshare (Scripted.scripted Scripted.secondFetchFails) Scripted.echoConnect
      Background tt [500] Scripted.shutdownCodespace Scripted.world0 in
  fst (fst (fst loop)) = Some (Errorf_w "error getting codespace: " aborted)
  /\ fst run = (None, Some timedOut)
  /\ fst run <> (None, Some (Errorf_w "error getting codespace: " aborted))
  /\ trace (snd run)
     = [StartProgressIndicatorWithLabel "Starting codespace";
        CallStartCodespace "monalisa-cli";
        CallGetCodespace "monalisa-cli" true;
        StopProgressIndicator]
  /\ fst late = (None, Some timedOut).
Proof.
  cbv zeta.
  assert (Hrun :
    fst (ConnectToLiveshare (Scripted.scripted Scripted.fetchAborted)
           Scripted.echoConnect (CancelledAt 150) tt [500; 550]
           Scripted.shutdownCodespace Scripted.world0)
    = (None, Some timedOut)).
  { vm_compute. reflexivity. }
  split; [|split; [|split; [|split]]].
  - rewrite (Retry_failed_fetch _ _ _ _ _
               (wrapError "Get /user/codespaces/monalisa-cli: " Canceled) 100 1%nat);
      reflexivity.
  - exact Hrun.
  - rewrite Hrun. discriminate.
  - vm_compute. reflexivity.
  - vm_compute. reflexivity.
Qed.

(** ** Decimal text *)

Lemma to_int_proper (n : Z) :
  Z.to_int n <> Decimal.Pos Decimal.Nil /\ Z.to_int n <> Decimal.Neg Decimal.Nil.
Proof.
  destruct n as [|p|p]; cbn; split; try discriminate;
    intros H; injection H as H; exact (Unsigned.to_uint_nonnil p H).
Qed.

(** The text of a number never starts with a plus sign and is never empty. *)
Lemma Itoa_head (n : Z) :
  exists c rest, Itoa n = String c rest /\ Ascii.eqb c "+" = false.
Proof.
  unfold Itoa.
  destruct (to_int_proper n) as [Hpos Hneg].
  pose proof (NilZero.isi (Z.to_int n) Hpos Hneg) as Hisi.
  destruct (NilZero.string_of_int (Z.to_int n)) as [|c rest] eqn:Htext.
  - discriminate Hisi.
  - exists c, rest. split; [reflexivity|].
    destruct (Ascii.eqb_spec c "+") as [->|Hc]; [|reflexivity].
    cbn in Hisi.
    destruct (NilEmpty.uint_of_string rest); discriminate Hisi.
Qed.

(** [strconv.Atoi] reads back what [strconv.Itoa] writes. *)
Lemma Atoi_Itoa (n : Z) : inIntRange n = true -> Atoi (Itoa n) = inl n.
Proof.
  intros Hrange. unfold Atoi.
  destruct (Itoa_head n) as (c & rest & Htext & Hplus).
  rewrite Htext, Hplus, <- Htext. unfold Itoa.
  destruct (to_int_proper n) as [Hpos Hneg].
  rewrite (NilZero.isi (Z.to_int n) Hpos Hneg).
  rewrite DecimalZ.of_to, Hrange. reflexivity.
Qed.

(** ** The invoker *)

(** C2. A response whose result flag is false makes the invoker method
    return port 0, the empty string and an error whose text is [failed to
    start SSH server: <message>] (respectively [failed to start JupyterLab:
    <message>]), whatever the other fields of the response hold: a port that
    is empty or no number changes nothing. A response whose flag is true and
    whose port is the decimal text of [n] (and more generally any text that
    [strconv.Atoi] reads as a number) makes it return that number, the
    payload string and no error; the response of the test (port text 1234,
    user test) gives 1234, test and no error. *)
Theorem envelope_translation
    (srv : Rpc.mockServer) (n : Z) (payload message : string) :
  inIntRange n = true ->
  let ssh := fun port user result =>
    {| Rpc.server := Rpc.withStartRemoteServerAsync
         {| Rpc.Ssh.ServerPort := port; Rpc.Ssh.User := user;
            Rpc.Ssh.Message := message; Rpc.Ssh.Result := result |} srv |} in
  let jupyter := fun port url result =>
    {| Rpc.server := Rpc.withGetRunningServer
         {| Rpc.Jupyter.Port := port; Rpc.Jupyter.ServerUrl := url;
            Rpc.Jupyter.Message := message; Rpc.Jupyter.Result := result |} srv |} in
  (forall port user,
      Rpc.StartSSHServer (ssh port user false)
      = (0, EmptyString, Some (errorString ("failed to start SSH server: " ++ message))))
  /\ (forall port url,
        Rpc.StartJupyterServer (jupyter port url false)
        = (0, EmptyString, Some (errorString ("failed to start JupyterLab: " ++ message))))
  /\ Error (errorString ("failed to start SSH server: " ++ message))
     = "failed to start SSH server: " ++ message
  /\ Error (errorString ("failed to start JupyterLab: " ++ message))
     = "failed to start JupyterLab: " ++ message
  /\ Rpc.StartSSHServer (ssh (Itoa n) payload true) = (n, payload, None)
  /\ Rpc.StartJupyterServer (jupyter (Itoa n) payload true) = (n, payload, None)
  /\ (forall text p,
        Atoi text = inl p ->
        Rpc.StartSSHServer (ssh text payload true) = (p, payload, None)
        /\ Rpc.StartJupyterServer (jupyter text payload true) = (p, payload, None))
  /\ Rpc.StartSSHServer
       {| Rpc.server := Rpc.withStartRemoteServerAsync
            {| Rpc.Ssh.ServerPort := "1234"; Rpc.Ssh.User := "test";
               Rpc.Ssh.Message := EmptyString; Rpc.Ssh.Result := true |} srv |}
     = (1234, "test", None).
Proof.
  intros Hrange ssh jupyter.
  assert (Hparsed : forall text p,
    Atoi text = inl p ->
    Rpc.StartSSHServer (ssh text payload true) = (p, payload, None)
    /\ Rpc.StartJupyterServer (jupyter text payload true) = (p, payload, None)).
  { intros text p Hp. unfold ssh, jupyter, Rpc.StartSSHServer, Rpc.StartJupyterServer.
    cbn [Rpc.server Rpc.withStartRemoteServerAsync Rpc.withGetRunningServer
         Rpc.StartRemoteServerAsyncFunc Rpc.GetRunningServerFunc
         Rpc.Ssh.Result Rpc.Ssh.ServerPort Rpc.Ssh.User
         Rpc.Jupyter.Result Rpc.Jupyter.Port Rpc.Jupyter.ServerUrl negb].
    rewrite Hp. split; reflexivity. }
  split; [intros port user; reflexivity|].
  split; [intros port url; reflexivity|].
  split; [reflexivity|]. split; [reflexivity|].
  split; [exact (proj1 (Hparsed _ _ (Atoi_Itoa n Hrange)))|].
  split; [exact (proj2 (Hparsed _ _ (Atoi_Itoa n Hrange)))|].
  split; [exact Hparsed|]. reflexivity.
Qed.

(** The responses of the two SSH tests, and a failure response that carries
    nothing but its message. *)
Lemma envelope_translation_witness :
  inIntRange 1234 = true
  /\ Rpc.StartSSHServer
       {| Rpc.server := Rpc.withStartRemoteServerAsync
            {| Rpc.Ssh.ServerPort := "1234"; Rpc.Ssh.User := "test";
               Rpc.Ssh.Message := "error message"; Rpc.Ssh.Result := false |}
            Rpc.newMockServer |}
     = (0, EmptyString,
        Some (errorString "failed to start SSH server: error message"))
  /\ Rpc.StartSSHServer
       {| Rpc.server := Rpc.withStartRemoteServerAsync
            {| Rpc.Ssh.ServerPort := EmptyString; Rpc.Ssh.User := EmptyString;
               Rpc.Ssh.Message := "error message"; Rpc.Ssh.Result := false |}
            Rpc.newMockServer |}
     = (0, EmptyString,
        Some (errorString "failed to start SSH server: error message"))
  /\ Rpc.StartJupyterServer
       {| Rpc.server := Rpc.withGetRunningServer
            {| Rpc.Jupyter.Port := "none"; Rpc.Jupyter.ServerUrl := EmptyString;
               Rpc.Jupyter.Message := "error message"; Rpc.Jupyter.Result := false |}
            Rpc.newMockServer |}
     = (0, EmptyString,
        Some (errorString "failed to start JupyterLab: error message"))
  /\ Rpc.StartSSHServer
       {| Rpc.server := Rpc.withStartRemoteServerAsync
            {| Rpc.Ssh.ServerPort := "1234"; Rpc.Ssh.User := "test";
               Rpc.Ssh.Message := "error message"; Rpc.Ssh.Result := true |}
            Rpc.newMockServer |}
     = (1234, "test", None).
Proof.
  pose proof (envelope_translation Rpc.newMockServer 1234 "test" "error message"
                eq_refl) as H.
  cbv zeta in H.
  destruct H as (Hssh & Hjupyter & _ & _ & Hport & _).
  split; [reflexivity|].
  split; [exact (Hssh "1234" "test")|].
  split; [exact (Hssh EmptyString EmptyString)|].
  split; [exact (Hjupyter "none" EmptyString)|].
  exact Hport.
Defined.

(** C8. Through an invoker made by [CreateInvoker], a rebuild response with
    [rebuildContainer] false gives an error whose text is exactly [couldn't
    rebuild codespace], and a response with [rebuildContainer] true gives no
    error, for an incremental and for a full rebuild alike. *)
Theorem rebuild_translation (srv : Rpc.mockServer) (full : bool) :
  let rebuild := fun rebuilt =>
    match Rpc.CreateInvoker None
            (Rpc.withRebuildContainerAsync
               {| Rpc.CodespaceHost.RebuildContainer := rebuilt |} srv) with
    | ((Some i, None), _) => Some (Rpc.RebuildContainer i full)
    | _ => None
    end in
  option_map (option_map Error) (rebuild false)
  = Some (Some "couldn't rebuild codespace")
  /\ rebuild false = Some (Some (errorString "couldn't rebuild codespace"))
  /\ rebuild true = Some None.
Proof.
  cbv zeta. unfold Rpc.CreateInvoker, Rpc.notifyCodespaceOfClientActivity.
  destruct full; repeat split.
Qed.

(** C9. On a fresh server, whatever becomes of the notification (answered,
    failed, or never answered), [CreateInvoker] over a usable channel returns
    an invoker and no error; the server has recorded one activity request,
    named [connected], so that the check of the tests passes; and every
    primary call through the invoker returns what the server's own function
    for that call determines, with no trace of the notification's outcome. *)
Theorem connected_notification_is_best_effort
    (srv : Rpc.mockServer) (outcome : list string -> Rpc.NotifyOutcome) :
  Rpc.NotifyCodespaceOfClientActivityCalls srv = [] ->
  exists i,
    Rpc.CreateInvoker None (Rpc.withNotify outcome srv) = ((Some i, None), Rpc.server i)
    /\ Rpc.NotifyCodespaceOfClientActivityCalls (Rpc.server i) = [[Rpc.connectedEventName]]
    /\ Rpc.verifyNotifyCodespaceOfClientActivity (Rpc.server i) = Rpc.Passed
    /\ Rpc.StartSSHServer i = Rpc.StartSSHServer {| Rpc.server := srv |}
    /\ Rpc.StartJupyterServer i = Rpc.StartJupyterServer {| Rpc.server := srv |}
    /\ (forall full,
          Rpc.RebuildContainer i full = Rpc.RebuildContainer {| Rpc.server := srv |} full).
Proof.
  intros Hfresh.
  unfold Rpc.CreateInvoker, Rpc.notifyCodespaceOfClientActivity.
  exists {| Rpc.server :=
              Rpc.recordNotify [Rpc.connectedEventName] (Rpc.withNotify outcome srv) |}.
  split; [reflexivity|].
  cbn [Rpc.server]. unfold Rpc.verifyNotifyCodespaceOfClientActivity.
  cbn [Rpc.recordNotify Rpc.withNotify Rpc.NotifyCodespaceOfClientActivityCalls].
  rewrite Hfresh. cbn [app].
  split; [reflexivity|]. split; [reflexivity|].
  split; [reflexivity|]. split; [reflexivity|].
  intros full. reflexivity.
Qed.

(** A fresh server whose notification function fails. *)
Lemma connected_notification_is_best_effort_witness :
  Rpc.NotifyCodespaceOfClientActivityCalls Rpc.newMockServer = []
  /\ exists i,
       Rpc.CreateInvoker None
         (Rpc.withNotify (fun _ => Rpc.NotifyFailed (errorString "unavailable"))
            Rpc.newMockServer)
       = ((Some i, None), Rpc.server i)
       /\ Rpc.verifyNotifyCodespaceOfClientActivity (Rpc.server i) = Rpc.Passed
       /\ Rpc.StartSSHServer i = Rpc.StartSSHServer {| Rpc.server := Rpc.newMockServer |}.
Proof.
  split; [reflexivity|].
  destruct (connected_notification_is_best_effort Rpc.newMockServer
              (fun _ => Rpc.NotifyFailed (errorString "unavailable")) eq_refl)
    as (i & Hcreate & _ & Hverify & Hssh & _).
  exists i. split; [exact Hcreate|]. split; [exact Hverify|exact Hssh].
Defined.

(** ** [ListenTCP] *)


(** * Further properties of [ConnectToLiveshare] *)

Section RunShape.
Context {S logger Session : Type}.
Variable api : apiClient S.
Variable liveshareConnect : Context -> Z -> Options logger -> option Session * option error.

Lemma eventsSince_app (w w' : World S logger) (added : list (Event logger)) :
  trace w' = (trace w ++ added)%list -> eventsSince w w' = added.
Proof.
  intros H. unfold eventsSince. rewrite H.
  rewrite skipn_app, skipn_all, Nat.sub_diag. reflexivity.
Qed.

Lemma sleep_trace (ctx : Context) (next : Z) (w : World S logger) :
  trace (snd (sleep ctx next w)) = trace w.
Proof.
  unfold sleep. destruct (doneAt ctx) as [t|]; [|reflexivity].
  destruct (t <? now w + Z.max 0 next); reflexivity.
Qed.

(** What one attempt does: nothing on a ready record; otherwise one fetch,
    with the connection data asked for, and an error. *)
Lemma operation_cases (ctx : Context) (codespace : Codespace) (w : World S logger) :
  (connectionReady codespace = true
   /\ operation api ctx codespace w = (None, codespace, w))
  \/ (connectionReady codespace = false
      /\ exists err fetched w1,
           operation api ctx codespace w = (Some err, fetched, w1)
           /\ trace w1 = (trace w ++ [CallGetCodespace (Name codespace) true])%list).
Proof.
  unfold operation. destruct (connectionReady codespace); [left; auto|right].
  split; [reflexivity|]. unfold callGetCodespace.
  destruct (GetCodespace api (client w) ctx (now w) (Name codespace) true)
    as [[[fetched|err] took] s'];
    do 3 eexists; split; reflexivity.
Qed.

Ltac close_shape :=
  split; [reflexivity|];
  split; [first [now rewrite app_nil_r | congruence]|];
  split; [reflexivity|];
  split; [cbn; lia|];
  first [discriminate | intros _; assumption].

(** The retry loop adds only fetches that ask for the connection data, at
    most one per answer of the policy and one more, and it ends without an
    error only on a record that is ready. *)
Lemma Retry_shape (ctx : Context) (schedule : list Z) :
  forall (codespace : Codespace) (w : World S logger),
  exists r schedule1 codespace1 w1 fetches,
    Retry (operation api ctx) ctx schedule codespace w = (r, schedule1, codespace1, w1)
    /\ trace w1 = (trace w ++ fetches)%list
    /\ forallb isFetchWithConnection fetches = true
    /\ (length fetches <= length schedule + 1)%nat
    /\ (r = None -> connectionReady codespace1 = true).
Proof.
  induction schedule as [|next rest IH]; intros codespace w;
    (destruct (operation_cases ctx codespace w)
      as [[Hready Hop]|[Hnot (err & fetched & w1 & Hop & Htrace)]];
     [ do 4 eexists; exists []; cbn [Retry]; rewrite Hop; close_shape
     | cbn [Retry]; rewrite Hop;
       destruct (asPermanent err) as [inner|];
       [ do 4 eexists; exists [CallGetCodespace (Name codespace) true]; close_shape
       | destruct (ctxErr ctx (now w1)) as [cerr|];
         [ do 4 eexists; exists [CallGetCodespace (Name codespace) true]; close_shape
         | ] ] ]).
  - do 4 eexists; exists [CallGetCodespace (Name codespace) true]; close_shape.
  - destruct (next =? Stop).
    + do 4 eexists; exists [CallGetCodespace (Name codespace) true]; close_shape.
    + pose proof (sleep_trace ctx next w1) as Hsleep.
      destruct (sleep ctx next w1) as [[cerr|] w2]; cbn [snd] in Hsleep.
      * do 4 eexists; exists [CallGetCodespace (Name codespace) true]; close_shape.
      * destruct (IH fetched w2)
          as (r & schedule1 & codespace1 & w3 & fetches & Hloop & Ht & Hf & Hl & Hr).
        exists r, schedule1, codespace1, w3,
          (CallGetCodespace (Name codespace) true :: fetches).
        split; [exact Hloop|]. split.
        { rewrite Ht, Hsleep, Htrace, <- app_assoc. reflexivity. }
        split; [exact Hf|]. split; [cbn [length]; lia|exact Hr].
Qed.
End RunShape.

(** The events of a run, on every path: the start of the codespace when the
    record is not Available at entry, then the fetches of the retry loop,
    then either the deferred stops alone (no session, an error) or the
    connection to a ready record followed by the deferred stops. *)
Lemma ConnectToLiveshare_events
    {S logger Session : Type} (api : apiClient S)
    (liveshareConnect : Context -> Z -> Options logger -> option Session * option error)
    (ctx : Context) (sessionLogger : logger) (schedule : list Z)
    (codespace : Codespace) (w : World S logger) :
  let run :=
    ConnectToLiveshare api liveshareConnect ctx sessionLogger schedule codespace w in
  let started := negb (State codespace =? CodespaceStateAvailable)%string in
  let opening :=
    if started
    then [StartProgressIndicatorWithLabel "Starting codespace";
          CallStartCodespace (Name codespace)]
    else [] in
  let deferred := if started then 1%nat else 0%nat in
  exists fetches,
    forallb isFetchWithConnection fetches = true
    /\ (length fetches <= length schedule + 1)%nat
    /\ ((eventsSince w (snd run)
         = (opening ++ fetches ++ repeat StopProgressIndicator deferred)%list
         /\ exists err, fst run = (None, Some err))
        \/ (exists ready t,
              connectionReady ready = true
              /\ eventsSince w (snd run)
                 = (opening ++ fetches
                    ++ [StartProgressIndicatorWithLabel "Connecting to codespace";
                        CallConnect (optionsOf sessionLogger ready)]
                    ++ repeat StopProgressIndicator (Datatypes.S deferred))%list
              /\ fst run = liveshareConnect ctx t (optionsOf sessionLogger ready))).
Proof.
  intros run started opening deferred.
  unfold run, ConnectToLiveshare, opening, deferred, started.
  assert (Htail : forall (n : nat) (w1 : World S logger) (opened : list (Event logger)),
    trace w1 = (trace w ++ opened)%list ->
    let tail :=
      let '(err, schedule1, codespace1, w2) :=
        Retry (operation api ctx) ctx schedule codespace w1 in
      match err with
      | Some err =>
          if fst (ctxNextBackOff ctx (now w2) schedule1) =? Stop
          then ((None, Some timedOut), runDeferred n w2)
          else ((None, Some err), runDeferred n w2)
      | None =>
          let w3 :=
            emit (StartProgressIndicatorWithLabel "Connecting to codespace") w2 in
          let opts := optionsOf sessionLogger codespace1 in
          let res := liveshareConnect ctx (now w3) opts in
          (res, runDeferred (Datatypes.S n) (emit (CallConnect opts) w3))
      end in
    exists fetches,
      forallb isFetchWithConnection fetches = true
      /\ (length fetches <= length schedule + 1)%nat
      /\ ((eventsSince w (snd tail)
           = (opened ++ fetches ++ repeat StopProgressIndicator n)%list
           /\ exists err, fst tail = (None, Some err))
          \/ (exists ready t,
                connectionReady ready = true
                /\ eventsSince w (snd tail)
                   = (opened ++ fetches
                      ++ [StartProgressIndicatorWithLabel "Connecting to codespace";
                          CallConnect (optionsOf sessionLogger ready)]
                      ++ repeat StopProgressIndicator (Datatypes.S n))%list
                /\ fst tail = liveshareConnect ctx t (optionsOf sessionLogger ready)))).
  { intros n w1 opened Hw1 tail. unfold tail.
    destruct (Retry_shape api ctx schedule codespace w1)
      as (r & schedule1 & codespace1 & w2 & fetches & Hloop & Hw2 & Hf & Hl & Hr).
    rewrite Hloop. exists fetches. split; [exact Hf|]. split; [exact Hl|].
    destruct r as [err|].
    - left.
      destruct (fst (ctxNextBackOff ctx (now w2) schedule1) =? Stop);
        cbn [snd fst]; (split; [|eexists; reflexivity]);
        apply eventsSince_app;
        rewrite runDeferred_trace, Hw2, Hw1, <- !app_assoc; reflexivity.
    - right. exists codespace1. eexists. split; [exact (Hr eq_refl)|].
      cbn [snd fst]. split; [|reflexivity].
      apply eventsSince_app. rewrite runDeferred_trace. unfold emit. cbn [trace].
      rewrite Hw2, Hw1, <- !app_assoc. reflexivity. }
  destruct (negb (State codespace =? CodespaceStateAvailable)%string).
  - unfold callStartCodespace, emit. cbn [now client trace].
    destruct (StartCodespace api (client w) ctx (now w) (Name codespace))
      as [[[err|] took] s'].
    + exists []. split; [reflexivity|]. split; [cbn; lia|]. left.
      cbn [snd fst]. split; [|eexists; reflexivity].
      apply eventsSince_app. rewrite runDeferred_trace. cbn [trace].
      rewrite <- !app_assoc. reflexivity.
    + apply Htail. cbn [trace]. rewrite <- app_assoc. reflexivity.
  - apply (Htail 0%nat w []). now rewrite app_nil_r.
Qed.

Lemma fetches_are_api_calls {logger : Type} (fetches : list (Event logger)) :
  forallb isFetchWithConnection fetches = true ->
  filter isApiCall fetches = fetches
  /\ filter isProgressStart fetches = []
  /\ filter isProgressStop fetches = []
  /\ (forall opts, ~ In (CallConnect opts) fetches).
Proof.
  induction fetches as [|e rest IH]; cbn [forallb filter].
  - intros _. repeat split. intros opts [].
  - rewrite andb_true_iff. intros [He Hrest].
    destruct (IH Hrest) as (Ha & Hs & Hp & Hc).
    destruct e as [label| |name|name [|]|opts']; try discriminate He.
    cbn [isApiCall isProgressStart isProgressStop]. rewrite Ha.
    repeat split; auto.
    intros opts [Hhead|Htail]; [discriminate Hhead|exact (Hc opts Htail)].
Qed.

Lemma filter_repeat_stop {logger : Type} (n : nat) :
  filter isProgressStop (repeat (@StopProgressIndicator logger) n)
  = repeat StopProgressIndicator n
  /\ filter isProgressStart (repeat (@StopProgressIndicator logger) n) = []
  /\ filter isApiCall (repeat (@StopProgressIndicator logger) n) = []
  /\ (forall opts, ~ In (CallConnect opts) (repeat (@StopProgressIndicator logger) n)).
Proof.
  induction n as [|n (Hp & Hs & Ha & Hc)]; cbn [repeat filter isProgressStop
    isProgressStart isApiCall].
  - repeat split. intros opts [].
  - rewrite Hp. repeat split; auto.
    intros opts [Hhead|Htail]; [discriminate Hhead|exact (Hc opts Htail)].
Qed.

(** X1. [liveshare.Connect] is only ever called with the connection data of a
    record that passed the readiness test: whenever a run calls it, the
    session id, the session token, the relay endpoint and the relay
    credential it is given are all non-empty. *)
Theorem Connect_is_given_credentials
    {S logger Session : Type} (api : apiClient S)
    (liveshareConnect : Context -> Z -> Options logger -> option Session * option error)
    (ctx : Context) (sessionLogger : logger) (schedule : list Z)
    (codespace : Codespace) (w : World S logger) (opts : Options logger) :
  In (CallConnect opts)
     (eventsSince w
        (snd (ConnectToLiveshare api liveshareConnect ctx sessionLogger schedule
                codespace w))) ->
  optSessionID opts <> EmptyString
  /\ optSessionToken opts <> EmptyString
  /\ optRelayEndpoint opts <> EmptyString
  /\ optRelaySAS opts <> EmptyString.
Proof.
  intros Hin.
  destruct (ConnectToLiveshare_events api liveshareConnect ctx sessionLogger
              schedule codespace w)
    as (fetches & Hf & _ & [[Hev _]|(ready & t & Hready & Hev & _)]);
    destruct (fetches_are_api_calls fetches Hf) as (_ & _ & _ & Hnofetch);
    rewrite Hev in Hin; clear Hev;
    apply in_app_or in Hin; destruct Hin as [Hin|Hin].
  - destruct (negb (State codespace =? CodespaceStateAvailable)%string);
      [destruct Hin as [H|[H|[]]]; discriminate H|destruct Hin].
  - apply in_app_or in Hin. destruct Hin as [Hin|Hin];
      [exact (False_ind _ (Hnofetch opts Hin))|].
    destruct (filter_repeat_stop (logger := logger)
                (if negb (State codespace =? CodespaceStateAvailable)%string
                 then 1%nat else 0%nat)) as (_ & _ & _ & Hnostop).
    exact (False_ind _ (Hnostop opts Hin)).
  - destruct (negb (State codespace =? CodespaceStateAvailable)%string);
      [destruct Hin as [H|[H|[]]]; discriminate H|destruct Hin].
  - apply in_app_or in Hin. destruct Hin as [Hin|Hin];
      [exact (False_ind _ (Hnofetch opts Hin))|].
    destruct Hin as [H|[H|Hin]]; [discriminate H| |].
    + injection H as <-. unfold connectionReady in Hready.
      rewrite !andb_true_iff, !nonEmpty_true in Hready.
      cbn [optionsOf optSessionID optSessionToken optRelayEndpoint optRelaySAS].
      tauto.
    + cbn [app] in Hin.
      destruct (filter_repeat_stop (logger := logger)
                  (Datatypes.S (if negb (State codespace =? CodespaceStateAvailable)%string
                                then 1%nat else 0%nat))) as (_ & _ & _ & Hnostop).
      exact (False_ind _ (Hnostop opts Hin)).
Qed.

(** A ready record: the call of [liveshare.Connect] that the run makes. *)
Lemma Connect_is_given_credentials_witness :
  let opts := optionsOf tt Scripted.readyCodespace in
  In (CallConnect opts)
     (eventsSince Scripted.world0
        (snd (ConnectToLiveshare (Scripted.scripted Scripted.neverReady)
                Scripted.echoConnect Background tt [500] Scripted.readyCodespace
                Scripted.world0)))
  /\ optSessionID opts <> EmptyString.
Proof.
  assert (Hin : In (CallConnect (optionsOf tt Scripted.readyCodespace))
     (eventsSince Scripted.world0
        (snd (ConnectToLiveshare (Scripted.scripted Scripted.neverReady)
                Scripted.echoConnect Background tt [500] Scripted.readyCodespace
                Scripted.world0)))).
  { right. left. reflexivity. }
  split; [exact Hin|].
  exact (proj1 (Connect_is_given_credentials _ _ _ _ _ _ _ _ Hin)).
Defined.

(** X2. On every path out of [ConnectToLiveshare] (a failed start, a failed
    or timed-out wait, a connection made or refused) the progress indicator
    is stopped as many times as it was started, and when it was started at
    all the last thing the run does is to stop it. *)
Theorem progress_indicator_is_stopped
    {S logger Session : Type} (api : apiClient S)
    (liveshareConnect : Context -> Z -> Options logger -> option Session * option error)
    (ctx : Context) (sessionLogger : logger) (schedule : list Z)
    (codespace : Codespace) (w : World S logger) :
  let events :=
    eventsSince w
      (snd (ConnectToLiveshare api liveshareConnect ctx sessionLogger schedule
              codespace w)) in
  length (filter isProgressStart events) = length (filter isProgressStop events)
  /\ (filter isProgressStart events = []
      \/ exists before, events = (before ++ [StopProgressIndicator])%list).
Proof.
  intros events. unfold events.
  destruct (ConnectToLiveshare_events api liveshareConnect ctx sessionLogger
              schedule codespace w)
    as (fetches & Hf & _ & [[Hev _]|(ready & t & _ & Hev & _)]);
    destruct (fetches_are_api_calls fetches Hf) as (_ & Hs & Hp & _);
    rewrite Hev; clear Hev;
    destruct (negb (State codespace =? CodespaceStateAvailable)%string);
    rewrite !filter_app, Hs, Hp; cbn; (split; [reflexivity|]).
  - right. exists (StartProgressIndicatorWithLabel "Starting codespace"
                   :: CallStartCodespace (Name codespace) :: fetches).
    reflexivity.
  - left. reflexivity.
  - right. exists (StartProgressIndicatorWithLabel "Starting codespace"
                   :: CallStartCodespace (Name codespace)
                   :: fetches ++ [StartProgressIndicatorWithLabel "Connecting to codespace";
                                  CallConnect (optionsOf sessionLogger ready);
                                  StopProgressIndicator])%list.
    cbn. do 2 f_equal. rewrite <- app_assoc. reflexivity.
  - right. exists (fetches ++ [StartProgressIndicatorWithLabel "Connecting to codespace";
                               CallConnect (optionsOf sessionLogger ready)])%list.
    rewrite <- app_assoc. reflexivity.
Qed.

(** X3. The round trips of a run, whatever the client answers: a start
    request exactly when the record is not Available at entry, made once and
    before anything else; after it only fetches that ask for the connection
    data, at most one per answer of the back-off policy and one more. *)
Theorem round_trips_of_a_run
    {S logger Session : Type} (api : apiClient S)
    (liveshareConnect : Context -> Z -> Options logger -> option Session * option error)
    (ctx : Context) (sessionLogger : logger) (schedule : list Z)
    (codespace : Codespace) (w : World S logger) :
  exists fetches,
    filter isApiCall
      (eventsSince w
         (snd (ConnectToLiveshare api liveshareConnect ctx sessionLogger schedule
                 codespace w)))
    = ((if (State codespace =? CodespaceStateAvailable)%string
        then []
        else [CallStartCodespace (Name codespace)]) ++ fetches)%list
    /\ forallb isFetchWithConnection fetches = true
    /\ (length fetches <= length schedule + 1)%nat.
Proof.
  destruct (ConnectToLiveshare_events api liveshareConnect ctx sessionLogger
              schedule codespace w)
    as (fetches & Hf & Hl & [[Hev _]|(ready & t & _ & Hev & _)]);
    destruct (fetches_are_api_calls fetches Hf) as (Ha & _ & _ & _);
    exists fetches; (split; [|split; [exact Hf|exact Hl]]);
    rewrite Hev; clear Hev;
    destruct (State codespace =? CodespaceStateAvailable)%string; cbn [negb];
    rewrite !filter_app, Ha;
    match goal with
    | |- context [repeat StopProgressIndicator ?n] =>
        destruct (filter_repeat_stop (logger := logger) n) as (_ & _ & -> & _)
    end; cbn; rewrite ?app_nil_r; reflexivity.
Qed.

(** X4. A record that becomes ready on a fetch is the one connected to: for a
    record that is Available but not ready at entry, when the first fetch
    answers a ready record, the context is never done and the policy answers
    a wait, the run waits once, makes no further fetch, and opens the session
    with the connection data of the fetched record, not of the record it was
    given: the options handed to [liveshare.Connect] hold the session id, the
    session token, the relay credential, the relay endpoint and the host keys
    of the fetched record, with the logger passed in. *)
Theorem fetched_record_is_connected
    {S logger Session : Type} (api : apiClient S)
    (liveshareConnect : Context -> Z -> Options logger -> option Session * option error)
    (ctx : Context) (sessionLogger : logger) (next : Z) (rest : list Z)
    (codespace fetched : Codespace) (w : World S logger) (took : Z) (s' : S) :
  State codespace = CodespaceStateAvailable ->
  connectionReady codespace = false ->
  GetCodespace api (client w) ctx (now w) (Name codespace) true = (inl fetched, took, s') ->
  connectionReady fetched = true ->
  doneAt ctx = None ->
  next <> Stop ->
  let t := now w + Z.max 0 took + Z.max 0 next in
  let opts :=
    {| optSessionID := SessionID (Connection fetched);
       optSessionToken := SessionToken (Connection fetched);
       optRelaySAS := RelaySAS (Connection fetched);
       optRelayEndpoint := RelayEndpoint (Connection fetched);
       optHostPublicKeys := HostPublicKeys (Connection fetched);
       optLogger := sessionLogger |} in
  ConnectToLiveshare api liveshareConnect ctx sessionLogger (next :: rest) codespace w
  = (liveshareConnect ctx t opts,
     {| now := t; client := s';
        trace := trace w ++
          [CallGetCodespace (Name codespace) true;
           StartProgressIndicatorWithLabel "Connecting to codespace";
           CallConnect opts;
           StopProgressIndicator] |}).
Proof.
  intros Hstate Hnot Hcall Hready Hctx Hnext t opts.
  change opts with (optionsOf sessionLogger fetched).
  unfold ConnectToLiveshare.
  rewrite (State_available_eqb _ Hstate). cbn [negb].
  cbn [Retry]. unfold operation at 1, callGetCodespace.
  rewrite Hnot, Hcall. cbn [asPermanent now].
  rewrite (ctxErr_never ctx _ Hctx).
  apply Z.eqb_neq in Hnext. rewrite Hnext.
  rewrite (sleep_never ctx next _ Hctx). cbn [now client trace].
  rewrite (Retry_ready api ctx rest fetched _ Hready).
  cbn [runDeferred]. unfold emit. cbn [now client trace].
  rewrite <- !app_assoc. reflexivity.
Qed.

(** A record without connection data whose first fetch brings it. *)
Lemma fetched_record_is_connected_witness :
  connectionReady
    {| Name := "monalisa-cli"; State := "Available";
       Connection := Scripted.noConnection |} = false
  /\ fst (ConnectToLiveshare
            (Scripted.scripted
               {| Scripted.startAnswer := (None, 100);
                  Scripted.getAnswers := [];
                  Scripted.getAfter := (inl Scripted.readyCodespace, 100) |})
            Scripted.echoConnect Background tt [500; 550]
            {| Name := "monalisa-cli"; State := "Available";
               Connection := Scripted.noConnection |}
            Scripted.world0)
     = (Some {| optSessionID := "session-id";
                optSessionToken := "session-token";
                optRelaySAS := "relay-sas";
                optRelayEndpoint := "sb://relay.example";
                optHostPublicKeys := ["host-key"];
                optLogger := tt |}, None).
Proof.
  split; [reflexivity|].
  refine (f_equal fst
           (fetched_record_is_connected
              (Scripted.scripted
                 {| Scripted.startAnswer := (None, 100);
                    Scripted.getAnswers := [];
                    Scripted.getAfter := (inl Scripted.readyCodespace, 100) |})
              Scripted.echoConnect Background tt 500 [550]
              {| Name := "monalisa-cli"; State := "Available";
                 Connection := Scripted.noConnection |}
              Scripted.readyCodespace Scripted.world0 100 1%nat
              eq_refl eq_refl eq_refl eq_refl eq_refl _)).
  discriminate.
Defined.

(** X5. Readiness is tested only at the head of an attempt. For a record
    that is Available but not ready at entry and a policy that is used up,
    the run makes exactly one fetch and returns the time-out error whatever
    that fetch answers: a failure, a record that is not ready, or a record
    that is ready, which is then never connected to. *)
Theorem single_attempt_times_out
    {S logger Session : Type} (api : apiClient S)
    (liveshareConnect : Context -> Z -> Options logger -> option Session * option error)
    (ctx : Context) (sessionLogger : logger)
    (codespace : Codespace) (w : World S logger) :
  State codespace = CodespaceStateAvailable ->
  connectionReady codespace = false ->
  let run := ConnectToLiveshare api liveshareConnect ctx sessionLogger [] codespace w in
  fst run = (None, Some timedOut)
  /\ eventsSince w (snd run) = [CallGetCodespace (Name codespace) true].
Proof.
  intros Hstate Hnot run. unfold run, ConnectToLiveshare.
  rewrite (State_available_eqb _ Hstate). cbn [negb].
  cbn [Retry]. unfold operation, callGetCodespace. rewrite Hnot.
  destruct (GetCodespace api (client w) ctx (now w) (Name codespace) true)
    as [[[fetched|err] took] s']; cbn [asPermanent Errorf_w now].
  - unfold ctxNextBackOff, ctxDone.
    destruct (ctxErr ctx (now w + Z.max 0 took)) as [cerr|];
      cbn [now NextBackOff fst snd runDeferred];
      destruct (ctxErr ctx _); cbn [fst]; rewrite Z.eqb_refl; cbn [fst snd];
      (split; [reflexivity|]); apply eventsSince_app; reflexivity.
  - unfold ctxNextBackOff, ctxDone.
    cbn [now NextBackOff fst snd runDeferred];
      destruct (ctxErr ctx _); cbn [fst]; rewrite Z.eqb_refl; cbn [fst snd];
      (split; [reflexivity|]); apply eventsSince_app; reflexivity.
Qed.

(** A ready record fetched on the only attempt. *)
Lemma single_attempt_times_out_witness :
  connectionReady
    {| Name := "monalisa-cli"; State := "Available";
       Connection := Scripted.noConnection |} = false
  /\ fst (ConnectToLiveshare
            (Scripted.scripted
               {| Scripted.startAnswer := (None, 100);
                  Scripted.getAnswers := [];
                  Scripted.getAfter := (inl Scripted.readyCodespace, 100) |})
            Scripted.echoConnect Background tt []
            {| Name := "monalisa-cli"; State := "Available";
               Connection := Scripted.noConnection |}
            Scripted.world0)
     = (None, Some timedOut).
Proof.
  split; [reflexivity|].
  exact (proj1 (single_attempt_times_out
                  (Scripted.scripted
                     {| Scripted.startAnswer := (None, 100);
                        Scripted.getAnswers := [];
                        Scripted.getAfter := (inl Scripted.readyCodespace, 100) |})
                  Scripted.echoConnect Background tt
                  {| Name := "monalisa-cli"; State := "Available";
                     Connection := Scripted.noConnection |}
                  Scripted.world0 eq_refl eq_refl)).
Defined.

(** * The pull request commands *)

Lemma afterPrefix_app (prefix rest : string) :
  Strings.afterPrefix (prefix ++ rest) prefix = Some rest.
Proof.
  induction prefix as [|a prefix IH]; cbn.
  - destruct rest; reflexivity.
  - rewrite Ascii.eqb_refl. exact IH.
Qed.

(** X6. [determineEditor] never gives an empty program name, whatever the
    platform and the environment: an empty VISUAL or EDITOR is passed over
    and [nano] is the last resort. *)
Theorem determineEditor_names_a_program (GOOS : string) (Getenv : string -> string) :
  Pr.determineEditor GOOS Getenv <> EmptyString
  /\ (GOOS = "windows" -> Pr.determineEditor GOOS Getenv = "notepad").
Proof.
  unfold Pr.determineEditor. split.
  - destruct (GOOS =? "windows")%string; [discriminate|].
    destruct (nonEmpty (Getenv "VISUAL")) eqn:Hv; [now apply nonEmpty_true|].
    destruct (nonEmpty (Getenv "EDITOR")) eqn:He; [now apply nonEmpty_true|].
    discriminate.
  - intros ->. reflexivity.
Qed.

(** X7. [currentBranch] gives back the branch name for every ref of the form
    [refs/heads/<branch>], also when the branch name contains [refs/heads/]
    again (only the leftmost occurrence is removed), and panics with the
    error of [git.Head] when that fails. *)
Theorem currentBranch_strips_the_prefix (branch : string) (err : error) :
  Pr.currentBranch (inl ("refs/heads/" ++ branch)) = Pr.Returns branch
  /\ Pr.currentBranch (inl ("refs/heads/" ++ "refs/heads/" ++ branch))
     = Pr.Returns ("refs/heads/" ++ branch)
  /\ Pr.currentBranch (inr err) = Pr.Panics err.
Proof.
  assert (H : forall b, Strings.ReplaceFirst ("refs/heads/" ++ b) "refs/heads/" EmptyString = b).
  { intros b.
    assert (Hcut := afterPrefix_app "refs/heads/" b).
    destruct ("refs/heads/" ++ b) eqn:Htext; [discriminate Htext|].
    cbn [Strings.ReplaceFirst]. rewrite Hcut. reflexivity. }
  unfold Pr.currentBranch. rewrite !H. repeat split.
Qed.

Lemma prOptionsLoop_fresh (prs : list Pr.graphqlPullRequest) :
  forall (seen : Z -> bool) (options : list string),
    (forall pr, In pr prs -> seen (Pr.Number pr) = false) ->
    NoDup (map Pr.Number prs) ->
    Pr.prOptionsLoop prs seen options = (options ++ map Pr.optionLabel prs)%list.
Proof.
  induction prs as [|pr rest IH]; intros seen options Hseen Hnodup.
  - cbn. now rewrite app_nil_r.
  - cbn [Pr.prOptionsLoop map]. rewrite (Hseen pr (or_introl eq_refl)).
    inversion Hnodup as [|n ns Hnotin Hrest]; subst.
    rewrite IH; [now rewrite <- app_assoc| |exact Hrest].
    intros pr' Hin.
    destruct (Z.eqb_spec (Pr.Number pr') (Pr.Number pr)) as [Heq|_].
    + exfalso. apply Hnotin. rewrite <- Heq. now apply in_map.
    + apply Hseen. now right.
Qed.

Lemma prOptions_distinct (prs : list Pr.graphqlPullRequest) :
  NoDup (map Pr.Number prs) -> Pr.prOptions prs = map Pr.optionLabel prs.
Proof.
  intros Hnodup. unfold Pr.prOptions.
  now rewrite prOptionsLoop_fresh.
Qed.

(** X8. When no pull request number occurs twice among the candidates, the
    options shown are the labels of the candidates in order, so that the
    pull request acted upon is the one whose line was chosen: the one opened
    in the browser or checked out carries the label shown at the index the
    prompt answered. *)
Theorem interactiveList_acts_on_the_choice
    (currentPr : option Pr.graphqlPullRequest)
    (viewerCreated reviewRequested : list Pr.graphqlPullRequest)
    (Ask : list string -> list string -> (nat * string) + error)
    (program : string) (args : list string)
    (checkoutPr : string -> option error)
    (index : nat) (action shown : string) :
  let prs := Pr.candidates currentPr viewerCreated reviewRequested in
  NoDup (map Pr.Number prs) ->
  Ask (Pr.prOptions prs) ["open in browser"; "checkout PR locally"; "cancel"]
  = inl (index, action) ->
  nth_error (Pr.prOptions prs) index = Some shown ->
  exists pr,
    nth_error prs index = Some pr
    /\ Pr.optionLabel pr = shown
    /\ (action = "open in browser" ->
        Pr.interactiveList (inl (currentPr, viewerCreated, reviewRequested)) Ask
          (inl (program :: args)) checkoutPr
        = Pr.Returns (Pr.OpenInBrowser program (Pr.URL pr), None))
    /\ (action = "checkout PR locally" ->
        Pr.interactiveList (inl (currentPr, viewerCreated, reviewRequested)) Ask
          (inl (program :: args)) checkoutPr
        = Pr.Returns (Pr.Checkout (Itoa (Pr.Number pr)),
                      checkoutPr (Itoa (Pr.Number pr)))).
Proof.
  intros prs Hnodup Hask Hshown.
  rewrite (prOptions_distinct prs Hnodup) in Hshown.
  rewrite nth_error_map in Hshown.
  destruct (nth_error prs index) as [pr|] eqn:Hpr; [|discriminate Hshown].
  injection Hshown as Hlabel.
  exists pr. split; [reflexivity|]. split; [exact Hlabel|].
  split; intros ->; unfold Pr.interactiveList; fold prs;
    rewrite Hask; cbn [String.eqb Ascii.eqb Bool.eqb]; rewrite Hpr; reflexivity.
Qed.

(** The pull request of the branch and one more, the second line chosen. *)
Lemma interactiveList_acts_on_the_choice_witness :
  let current := {| Pr.Number := 12; Pr.Title := "Fix typo";
                    Pr.URL := "https://github.com/o/r/pull/12";
                    Pr.HeadRefName := "typo" |} in
  let other := {| Pr.Number := 15; Pr.Title := "Add tests";
                  Pr.URL := "https://github.com/o/r/pull/15";
                  Pr.HeadRefName := "tests" |} in
  Pr.prOptions (Pr.candidates (Some current) [other] [])
  = ["[12] Fix typo"; "[15] Add tests"]
  /\ Pr.interactiveList (inl (Some current, [other], []))
       (fun _ _ => inl (1%nat, "open in browser")) (inl ["open"]) (fun _ => None)
     = Pr.Returns (Pr.OpenInBrowser "open" "https://github.com/o/r/pull/15", None).
Proof.
  cbv zeta. split; [reflexivity|].
  assert (Hnodup : NoDup (map Pr.Number
    (Pr.candidates
       (Some {| Pr.Number := 12; Pr.Title := "Fix typo";
                Pr.URL := "https://github.com/o/r/pull/12";
                Pr.HeadRefName := "typo" |})
       [{| Pr.Number := 15; Pr.Title := "Add tests";
           Pr.URL := "https://github.com/o/r/pull/15";
           Pr.HeadRefName := "tests" |}] []))).
  { repeat constructor; cbn; intuition discriminate. }
  destruct (interactiveList_acts_on_the_choice _ _ _
              (fun _ _ => inl (1%nat, "open in browser")) "open" [] (fun _ => None)
              1%nat "open in browser" "[15] Add tests" Hnodup eq_refl eq_refl)
    as (pr & Hpr & _ & Hopen & _).
  injection Hpr as <-. exact (Hopen eq_refl).
Defined.

(** X9. The options leave out a number already shown, but the answer of the
    prompt indexes the list before that: when the pull request of the
    current branch also heads the list of those the viewer created, choosing
    the line of any later pull request acts on another one, the candidate
    that stands one place earlier. *)
Theorem interactiveList_repeated_current_pr
    (current repeated chosen : Pr.graphqlPullRequest)
    (viewerCreated reviewRequested : list Pr.graphqlPullRequest)
    (Ask : list string -> list string -> (nat * string) + error)
    (launcher : list string + error)
    (checkoutPr : string -> option error) (j : nat) :
  let others := (viewerCreated ++ reviewRequested)%list in
  let prs := Pr.candidates (Some current) (repeated :: viewerCreated) reviewRequested in
  Pr.Number repeated = Pr.Number current ->
  NoDup (map Pr.Number (current :: others)) ->
  nth_error others j = Some chosen ->
  Ask (Pr.prOptions prs) ["open in browser"; "checkout PR locally"; "cancel"]
  = inl (Datatypes.S j, "checkout PR locally") ->
  nth_error (Pr.prOptions prs) (Datatypes.S j) = Some (Pr.optionLabel chosen)
  /\ exists acted,
       nth_error (repeated :: others) j = Some acted
       /\ Pr.Number acted <> Pr.Number chosen
       /\ Pr.interactiveList (inl (Some current, repeated :: viewerCreated, reviewRequested))
            Ask launcher checkoutPr
          = Pr.Returns (Pr.Checkout (Itoa (Pr.Number acted)),
                        checkoutPr (Itoa (Pr.Number acted))).
Proof.
  intros others prs Hsame Hnodup Hchosen Hask.
  assert (Hoptions : Pr.prOptions prs = map Pr.optionLabel (current :: others)).
  { unfold prs, Pr.candidates, Pr.prOptions.
    change ([current] ++ (repeated :: viewerCreated) ++ reviewRequested)%list
      with (current :: repeated :: others).
    cbn [app Pr.prOptionsLoop].
    rewrite Hsame, Z.eqb_refl.
    inversion Hnodup as [|n ns Hnotin Hrest]; subst.
    rewrite prOptionsLoop_fresh; [reflexivity| |exact Hrest].
    intros pr Hin.
    destruct (Z.eqb_spec (Pr.Number pr) (Pr.Number current)) as [Heq|_];
      [|reflexivity].
    exfalso. apply Hnotin. rewrite <- Heq. now apply in_map. }
  split.
  { rewrite Hoptions. cbn [map nth_error]. now rewrite nth_error_map, Hchosen. }
  assert (Hacted : exists acted, nth_error (repeated :: others) j = Some acted).
  { destruct (nth_error (repeated :: others) j) eqn:H; [eauto|].
    apply nth_error_None in H. cbn [length] in H.
    assert (j < length others)%nat by (apply nth_error_Some; congruence). lia. }
  destruct Hacted as (acted & Hacted).
  exists acted. split; [exact Hacted|]. split.
  - (* the candidate one place earlier has another number than the chosen one *)
    intros Heq.
    assert (Hnd : NoDup (map Pr.Number (repeated :: others))).
    { cbn [map]. rewrite Hsame. exact Hnodup. }
    assert (Hj : nth_error (map Pr.Number (repeated :: others)) j = Some (Pr.Number acted)).
    { now rewrite nth_error_map, Hacted. }
    assert (Hsj : nth_error (map Pr.Number (repeated :: others)) (Datatypes.S j)
                  = Some (Pr.Number acted)).
    { cbn [map nth_error]. now rewrite nth_error_map, Hchosen, Heq. }
    assert (Hlt : (j < length (map Pr.Number (repeated :: others)))%nat).
    { apply nth_error_Some. congruence. }
    pose proof (proj1 (NoDup_nth_error _) Hnd j (Datatypes.S j) Hlt) as Hinj.
    rewrite Hj, Hsj in Hinj. specialize (Hinj eq_refl). lia.
  - unfold Pr.interactiveList. fold prs. rewrite Hask.
    cbn [String.eqb Ascii.eqb Bool.eqb].
    change prs with (current :: repeated :: others).
    change (nth_error (current :: repeated :: others) (Datatypes.S j))
      with (nth_error (repeated :: others) j).
    rewrite Hacted. reflexivity.
Qed.

(** The pull request of the branch, listed again among the viewer's own,
    and one more whose line is chosen. *)
Lemma interactiveList_repeated_current_pr_witness :
  let current := {| Pr.Number := 12; Pr.Title := "Fix typo";
                    Pr.URL := "https://github.com/o/r/pull/12";
                    Pr.HeadRefName := "typo" |} in
  let other := {| Pr.Number := 15; Pr.Title := "Add tests";
                  Pr.URL := "https://github.com/o/r/pull/15";
                  Pr.HeadRefName := "tests" |} in
  nth_error (Pr.prOptions (Pr.candidates (Some current) [current; other] []))
    1%nat = Some "[15] Add tests"
  /\ Pr.interactiveList (inl (Some current, [current; other], []))
       (fun _ _ => inl (1%nat, "checkout PR locally")) (inl ["open"])
       (fun _ => None)
     = Pr.Returns (Pr.Checkout "12", None).
Proof.
  cbv zeta. split; [reflexivity|].
  assert (Hnodup : NoDup (map Pr.Number
    ({| Pr.Number := 12; Pr.Title := "Fix typo";
        Pr.URL := "https://github.com/o/r/pull/12";
        Pr.HeadRefName := "typo" |}
     :: ([{| Pr.Number := 15; Pr.Title := "Add tests";
             Pr.URL := "https://github.com/o/r/pull/15";
             Pr.HeadRefName := "tests" |}] ++ [])%list))).
  { repeat constructor; cbn; intuition discriminate. }
  destruct (interactiveList_repeated_current_pr _ _ _ _ _
              (fun _ _ => inl (1%nat, "checkout PR locally")) (inl ["open"])
              (fun _ => None) 0%nat eq_refl Hnodup eq_refl eq_refl)
    as (_ & acted & Hacted & _ & Hrun).
  injection Hacted as <-. exact Hrun.
Defined.

(** * The table printer *)

Lemma string_length_app (a b : string) :
  String.length (a ++ b) = (String.length a + String.length b)%nat.
Proof. induction a as [|c a IH]; cbn; [reflexivity|now rewrite IH]. Qed.

Lemma Repeat_space_length (n : nat) : String.length (Strings.Repeat " " n) = n.
Proof. induction n as [|n IH]; cbn; [reflexivity|now rewrite IH]. Qed.

Lemma prefix_app (a b : string) : prefix a (a ++ b) = true.
Proof.
  induction a as [|c a IH]; cbn.
  - destruct b; reflexivity.
  - destruct (ascii_dec c c) as [_|Hc]; [exact IH|now elim Hc].
Qed.

(** X10. The padding of a header column: the padded text has the column
    width when the text is shorter and its own length otherwise, it starts
    with the text (nothing is cut), and padding a padded text again changes
    nothing. *)
Theorem paddingFunc_pads_to_width (width : Z) (text : string) :
  let padded := Tableprinter.paddingFunc width text in
  Z.of_nat (String.length padded) = Z.max width (Z.of_nat (String.length text))
  /\ prefix text padded = true
  /\ Tableprinter.paddingFunc width padded = padded.
Proof.
  intros padded.
  assert (Hlen : Z.of_nat (String.length padded)
                 = Z.max width (Z.of_nat (String.length text))).
  { unfold padded, Tableprinter.paddingFunc.
    destruct (Z.ltb_spec (Z.of_nat (String.length text)) width) as [Hlt|Hge].
    - rewrite string_length_app, Repeat_space_length. lia.
    - lia. }
  split; [exact Hlen|]. split.
  - unfold padded, Tableprinter.paddingFunc.
    destruct (Z.of_nat (String.length text) <? width).
    + apply prefix_app.
    + clear. induction text as [|c text IH]; cbn; [reflexivity|].
      destruct (ascii_dec c c) as [_|Hc]; [exact IH|now elim Hc].
  - unfold Tableprinter.paddingFunc at 1. fold padded.
    destruct (Z.ltb_spec (Z.of_nat (String.length padded)) width) as [Hlt|_];
      [lia|reflexivity].
Qed.

(** * The remotes *)

Section RemotesFacts.
Variable URL : Type.
Variable FindStringSubmatch : string -> option (string * string * string).
Variable TrimSpace : string -> string.
Variable ParseURL : string -> URL + error.

Lemma lastOf_app {A : Type} (l : list A) (x : A) : Git.lastOf (l ++ [x]) = Some x.
Proof.
  induction l as [|y l IH]; [reflexivity|].
  change ((y :: l) ++ [x])%list with (y :: (l ++ [x]))%list.
  destruct (l ++ [x])%list eqn:H; [now destruct l|exact IH].
Qed.

Lemma lastOf_map {A B : Type} (f : A -> B) (l : list A) :
  Git.lastOf (map f l) = option_map f (Git.lastOf l).
Proof.
  induction l as [|x l IH]; [reflexivity|].
  destruct l as [|y l]; [reflexivity|]. exact IH.
Qed.

Lemma updateLast_names (f : Git.Remote URL -> Git.Remote URL) (remotes : list (Git.Remote URL)) :
  (forall rem, Git.Name (f rem) = Git.Name rem) ->
  map (@Git.Name URL) (Git.updateLast f remotes) = map (@Git.Name URL) remotes.
Proof.
  intros Hf. induction remotes as [|x l IH]; [reflexivity|].
  destruct l as [|y l]; [cbn; now rewrite Hf|].
  change (Git.updateLast f (x :: y :: l)) with (x :: Git.updateLast f (y :: l)).
  cbn [map]. now rewrite IH.
Qed.

Lemma parseRemotesStep_names (remotes : list (Git.Remote URL)) (r : string) :
  map (@Git.Name URL) (Git.parseRemotesStep URL FindStringSubmatch TrimSpace ParseURL remotes r)
  = (Git.pushName FindStringSubmatch TrimSpace) (map (@Git.Name URL) remotes) r.
Proof.
  unfold Git.parseRemotesStep, Git.pushName.
  destruct (FindStringSubmatch r) as [[[group1 group2] group3]|]; [|reflexivity].
  assert (Hgrown :
    map (@Git.Name URL) (match Git.lastOf remotes with
           | Some rem =>
               if (TrimSpace group1 =? Git.Name rem)%string then remotes
               else (remotes ++ [Git.newRemote URL (TrimSpace group1)])%list
           | None => (remotes ++ [Git.newRemote URL (TrimSpace group1)])%list
           end)
    = match Git.lastOf (map (@Git.Name URL) remotes) with
      | Some n => if (TrimSpace group1 =? n)%string then map (@Git.Name URL) remotes
                  else (map (@Git.Name URL) remotes ++ [TrimSpace group1])%list
      | None => (map (@Git.Name URL) remotes ++ [TrimSpace group1])%list
      end).
  { rewrite lastOf_map.
    destruct (Git.lastOf remotes) as [rem|]; cbn [option_map].
    - destruct (TrimSpace group1 =? Git.Name rem)%string; [reflexivity|].
      now rewrite map_app.
    - now rewrite map_app. }
  destruct (ParseURL (TrimSpace group2)) as [u|err]; [|exact Hgrown].
  destruct (TrimSpace group3 =? "fetch")%string;
    [rewrite updateLast_names; [exact Hgrown|reflexivity]|].
  destruct (TrimSpace group3 =? "push")%string;
    [rewrite updateLast_names; [exact Hgrown|reflexivity]|exact Hgrown].
Qed.

Lemma fold_parseRemotesStep_names (lines : list string) :
  forall remotes,
    map (@Git.Name URL) (fold_left (Git.parseRemotesStep URL FindStringSubmatch TrimSpace ParseURL)
             lines remotes)
    = fold_left (Git.pushName FindStringSubmatch TrimSpace) lines (map (@Git.Name URL) remotes).
Proof.
  induction lines as [|r lines IH]; intros remotes; [reflexivity|].
  cbn [fold_left]. now rewrite IH, parseRemotesStep_names.
Qed.

Lemma matchedNames_cons (r : string) (lines : list string) :
  Git.matchedNames FindStringSubmatch TrimSpace (r :: lines)
  = ((match FindStringSubmatch r with
      | Some (group1, _, _) => [TrimSpace group1]
      | None => []
      end) ++ Git.matchedNames FindStringSubmatch TrimSpace lines)%list.
Proof. reflexivity. Qed.

Lemma uniqAdjacent_cons (a b : string) (rest : list string) :
  Git.uniqAdjacent (a :: b :: rest)
  = if (a =? b)%string then Git.uniqAdjacent (b :: rest)
    else a :: Git.uniqAdjacent (b :: rest).
Proof. reflexivity. Qed.

Lemma fold_pushName_last (lines : list string) :
  forall (before : list string) (n : string),
    fold_left (Git.pushName FindStringSubmatch TrimSpace) lines (before ++ [n])%list
    = (before ++ Git.uniqAdjacent (n :: Git.matchedNames FindStringSubmatch TrimSpace lines))%list.
Proof.
  induction lines as [|r lines IH]; intros before n; [reflexivity|].
  cbn [fold_left]. rewrite matchedNames_cons. unfold Git.pushName at 2.
  destruct (FindStringSubmatch r) as [[[group1 group2] group3]|]; [|exact (IH before n)].
  rewrite lastOf_app.
  change ([TrimSpace group1] ++ Git.matchedNames FindStringSubmatch TrimSpace lines)%list
    with (TrimSpace group1 :: Git.matchedNames FindStringSubmatch TrimSpace lines).
  rewrite uniqAdjacent_cons.
  destruct (String.eqb_spec (TrimSpace group1) n) as [Heq|Hne].
  - rewrite <- Heq, String.eqb_refl. exact (IH before (TrimSpace group1)).
  - assert (Hsym : (n =? TrimSpace group1)%string = false)
      by (apply String.eqb_neq; congruence).
    rewrite Hsym, (IH (before ++ [n])%list (TrimSpace group1)), <- app_assoc.
    reflexivity.
Qed.

Lemma fold_pushName_nil (lines : list string) :
  fold_left (Git.pushName FindStringSubmatch TrimSpace) lines []
  = Git.uniqAdjacent (Git.matchedNames FindStringSubmatch TrimSpace lines).
Proof.
  induction lines as [|r lines IH]; [reflexivity|].
  cbn [fold_left]. rewrite matchedNames_cons. unfold Git.pushName at 2.
  destruct (FindStringSubmatch r) as [[[group1 group2] group3]|]; [|exact IH].
  exact (fold_pushName_last lines [] (TrimSpace group1)).
Qed.
End RemotesFacts.

(** X11. The remotes that [parseRemotes] lists are named after the lines that
    match, in order, with every run of neighbouring lines of one name giving
    one remote (two lines of one name that are apart give two). Whether the
    URL of a line parses plays no part: a remote whose URLs do not parse is
    listed all the same. *)
Theorem parseRemotes_names
    (URL : Type) (FindStringSubmatch : string -> option (string * string * string))
    (TrimSpace : string -> string) (ParseURL : string -> URL + error)
    (gitRemotes : list string) :
  map Git.Name (Git.parseRemotes URL FindStringSubmatch TrimSpace ParseURL gitRemotes)
  = Git.uniqAdjacent (Git.matchedNames FindStringSubmatch TrimSpace gitRemotes).
Proof.
  unfold Git.parseRemotes.
  rewrite fold_parseRemotesStep_names. apply fold_pushName_nil.
Qed.

Section AttributionFacts.
Variable URL : Type.
Variable FindStringSubmatch : string -> option (string * string * string).
Variable TrimSpace : string -> string.
Variable ParseURL : string -> URL + error.

Lemma Forall_updateLast {A : Type} (P : A -> Prop) (f : A -> A) (l : list A) :
  Forall P l ->
  (forall x, Git.lastOf l = Some x -> P x -> P (f x)) ->
  Forall P (Git.updateLast f l).
Proof.
  induction l as [|x l IH]; intros Hall Hf; [constructor|].
  inversion Hall as [|y ys Hx Hl]; subst.
  destruct l as [|y l].
  - constructor; [|constructor]. now apply Hf.
  - change (Git.updateLast f (x :: y :: l)) with (x :: Git.updateLast f (y :: l)).
    constructor; [exact Hx|]. apply IH; [exact Hl|].
    intros z Hz. apply Hf. exact Hz.
Qed.

Lemma parseRemotesStep_attributed (gitRemotes : list string)
    (remotes : list (Git.Remote URL)) (r : string) :
  In r gitRemotes ->
  Forall (Git.attributed URL FindStringSubmatch TrimSpace ParseURL gitRemotes) remotes ->
  Forall (Git.attributed URL FindStringSubmatch TrimSpace ParseURL gitRemotes)
    (Git.parseRemotesStep URL FindStringSubmatch TrimSpace ParseURL remotes r).
Proof.
  intros Hin Hall. unfold Git.parseRemotesStep.
  destruct (FindStringSubmatch r) as [[[group1 group2] group3]|] eqn:Hmatch;
    [|exact Hall].
  set (name := TrimSpace group1).
  set (remotes1 := match Git.lastOf remotes with
                   | Some rem => if (name =? Git.Name rem)%string then remotes
                                 else (remotes ++ [Git.newRemote URL name])%list
                   | None => (remotes ++ [Git.newRemote URL name])%list
                   end).
  assert (Hgrown : Forall (Git.attributed URL FindStringSubmatch TrimSpace ParseURL gitRemotes) remotes1
                   /\ forall rem, Git.lastOf remotes1 = Some rem -> Git.Name rem = name).
  { assert (Hnew : Forall (Git.attributed URL FindStringSubmatch TrimSpace ParseURL gitRemotes)
                     (remotes ++ [Git.newRemote URL name])%list).
    { apply Forall_app. split; [exact Hall|]. constructor; [|constructor].
      split; intros u Hu; discriminate Hu. }
    unfold remotes1. destruct (Git.lastOf remotes) as [rem|] eqn:Hlast.
    - destruct (String.eqb_spec name (Git.Name rem)) as [Heq|_].
      + split; [exact Hall|]. intros rem' Hrem'. congruence.
      + split; [exact Hnew|]. intros rem' Hrem'.
        rewrite lastOf_app in Hrem'. now injection Hrem' as <-.
    - split; [exact Hnew|]. intros rem' Hrem'.
      rewrite lastOf_app in Hrem'. now injection Hrem' as <-. }
  destruct Hgrown as [Hall1 Hlast1].
  destruct (ParseURL (TrimSpace group2)) as [u|err] eqn:Hparse; [|exact Hall1].
  destruct (String.eqb_spec (TrimSpace group3) "fetch") as [Hfetch|_].
  - apply Forall_updateLast; [exact Hall1|].
    intros rem Hrem [_ Hpush]. split; cbn [Git.setFetchURL Git.FetchURL Git.PushURL Git.Name].
    + intros u' Hu'. injection Hu' as <-.
      exists r, group1, group2, group3. rewrite (Hlast1 rem Hrem). auto.
    + exact Hpush.
  - destruct (String.eqb_spec (TrimSpace group3) "push") as [Hpush|_]; [|exact Hall1].
    apply Forall_updateLast; [exact Hall1|].
    intros rem Hrem [Hfetch _]. split; cbn [Git.setPushURL Git.FetchURL Git.PushURL Git.Name].
    + exact Hfetch.
    + intros u' Hu'. injection Hu' as <-.
      exists r, group1, group2, group3. rewrite (Hlast1 rem Hrem). auto.
Qed.

Lemma fold_parseRemotesStep_attributed (gitRemotes lines : list string) :
  (forall r, In r lines -> In r gitRemotes) ->
  forall remotes,
    Forall (Git.attributed URL FindStringSubmatch TrimSpace ParseURL gitRemotes) remotes ->
    Forall (Git.attributed URL FindStringSubmatch TrimSpace ParseURL gitRemotes)
      (fold_left (Git.parseRemotesStep URL FindStringSubmatch TrimSpace ParseURL)
         lines remotes).
Proof.
  induction lines as [|r lines IH]; intros Hsub remotes Hall; [exact Hall|].
  cbn [fold_left]. apply IH.
  - intros r' Hr'. apply Hsub. now right.
  - apply parseRemotesStep_attributed; [apply Hsub; now left|exact Hall].
Qed.
End AttributionFacts.

(** X12. [parseRemotes] never gives a remote the URL of another: a fetch URL
    of a listed remote is what [ParseURL] made of the URL text of a line of
    type [fetch] that carries that remote's name, and likewise a push URL
    comes from a line of type [push] of that name. *)
Theorem parseRemotes_attributes_urls
    (URL : Type) (FindStringSubmatch : string -> option (string * string * string))
    (TrimSpace : string -> string) (ParseURL : string -> URL + error)
    (gitRemotes : list string) :
  Forall (Git.attributed URL FindStringSubmatch TrimSpace ParseURL gitRemotes)
    (Git.parseRemotes URL FindStringSubmatch TrimSpace ParseURL gitRemotes).
Proof.
  unfold Git.parseRemotes.
  apply fold_parseRemotesStep_attributed; [auto|constructor].
Qed.

Lemma resolveFirst_frame {URL : Type} (name value : string)
    (remotes : list (Git.Remote URL)) :
  map Git.Name (Git.resolveFirst URL name value remotes) = map Git.Name remotes
  /\ map Git.FetchURL (Git.resolveFirst URL name value remotes) = map Git.FetchURL remotes
  /\ map Git.PushURL (Git.resolveFirst URL name value remotes) = map Git.PushURL remotes.
Proof.
  induction remotes as [|r rest (Hn & Hf & Hp)]; [repeat split|].
  cbn [Git.resolveFirst]. destruct (Git.Name r =? name)%string; cbn [map].
  - repeat split.
  - rewrite Hn, Hf, Hp. repeat split.
Qed.

Lemma resolveStep_frame {URL : Type} (remotes : list (Git.Remote URL)) (l : string) :
  map Git.Name (Git.resolveStep URL remotes l) = map Git.Name remotes
  /\ map Git.FetchURL (Git.resolveStep URL remotes l) = map Git.FetchURL remotes
  /\ map Git.PushURL (Git.resolveStep URL remotes l) = map Git.PushURL remotes.
Proof.
  unfold Git.resolveStep.
  destruct (Strings.SplitN l " " 2) as [|key [|value [|more parts]]];
    try solve [repeat split].
  destruct (Strings.SplitN key "." 3) as [|first [|name rp]];
    try solve [repeat split].
  apply resolveFirst_frame.
Qed.

(** X13. The resolutions read from the configuration change nothing but the
    field [Resolved]: [Remotes] gives the remotes of [parseRemotes] with their
    names, their order and their URLs, whatever the configuration lines are;
    and when [listRemotes] fails its error is returned as it is. *)
Theorem Remotes_keeps_names_and_urls
    (URL : Type) (FindStringSubmatch : string -> option (string * string * string))
    (TrimSpace : string -> string) (ParseURL : string -> URL + error)
    (gitRemotes configLines : list string) (err : error) :
  (exists remotes,
      Git.Remotes URL FindStringSubmatch TrimSpace ParseURL (inl gitRemotes) configLines
      = inl remotes
      /\ let parsed :=
           Git.parseRemotes URL FindStringSubmatch TrimSpace ParseURL gitRemotes in
         map Git.Name remotes = map Git.Name parsed
         /\ map Git.FetchURL remotes = map Git.FetchURL parsed
         /\ map Git.PushURL remotes = map Git.PushURL parsed)
  /\ Git.Remotes URL FindStringSubmatch TrimSpace ParseURL (inr err) configLines
     = inr err.
Proof.
  split; [|reflexivity].
  eexists. split; [reflexivity|]. cbv zeta.
  generalize (Git.parseRemotes URL FindStringSubmatch TrimSpace ParseURL gitRemotes).
  induction configLines as [|l lines IH]; intros parsed; [repeat split|].
  cbn [fold_left].
  destruct (IH (Git.resolveStep URL parsed l)) as (Hn & Hf & Hp).
  destruct (resolveStep_frame parsed l) as (Hn' & Hf' & Hp').
  rewrite Hn, Hf, Hp, Hn', Hf', Hp'. repeat split.
Qed.

Lemma cut_app (a b : string) (sep : ascii) :
  Strings.hasByte sep a = false ->
  Strings.cut (a ++ String sep b) sep = Some (a, b).
Proof.
  induction a as [|c a IH]; cbn [append Strings.cut Strings.hasByte].
  - intros _. now rewrite Ascii.eqb_refl.
  - rewrite orb_false_iff. intros [Hc Ha]. rewrite Hc, (IH Ha). reflexivity.
Qed.

Lemma hasByte_app (c : ascii) (a b : string) :
  Strings.hasByte c (a ++ b) = Strings.hasByte c a || Strings.hasByte c b.
Proof.
  induction a as [|d a IH]; cbn [append Strings.hasByte]; [reflexivity|].
  now rewrite IH, orb_assoc.
Qed.

Lemma resolveStep_first_component
    (URL : Type) (remotes : list (Git.Remote URL)) (a rest value : string) :
  Strings.hasByte "." a = false ->
  Strings.hasByte " " a = false ->
  Strings.hasByte " " rest = false ->
  Git.resolveStep URL remotes (("remote." ++ a ++ String "." rest) ++ String " " value)
  = Git.resolveFirst URL a value remotes.
Proof.
  intros Hdot Hblank Hrest. unfold Git.resolveStep.
  assert (Hkey : Strings.hasByte " " ("remote." ++ a ++ String "." rest) = false).
  { rewrite !hasByte_app. cbn [Strings.hasByte]. rewrite Hblank, Hrest. reflexivity. }
  cbn [Strings.SplitN]. rewrite (cut_app _ value " " Hkey).
  change ("remote." ++ a ++ String "." rest)
    with ("remote" ++ String "." (a ++ String "." rest)).
  rewrite (cut_app "remote" _ "." eq_refl).
  rewrite (cut_app a rest "." Hdot). reflexivity.
Qed.

(** The inner loop reaches the first remote of the name and stops there. *)
Lemma resolveFirst_found {URL : Type} (name value : string)
    (before : list (Git.Remote URL)) (r : Git.Remote URL)
    (after : list (Git.Remote URL)) :
  Forall (fun other => Git.Name other <> name) before ->
  Git.Name r = name ->
  Git.resolveFirst URL name value (before ++ r :: after)%list
  = (before ++ Git.setResolved URL value r :: after)%list.
Proof.
  intros Hbefore Hr.
  induction Hbefore as [|other before Hother _ IH].
  - rewrite !app_nil_l. cbn [Git.resolveFirst].
    apply String.eqb_eq in Hr. rewrite Hr. reflexivity.
  - rewrite <- !app_comm_cons. cbn [Git.resolveFirst].
    apply String.eqb_neq in Hother. rewrite Hother, IH. reflexivity.
Qed.

Lemma resolveFirst_absent {URL : Type} (name value : string)
    (remotes : list (Git.Remote URL)) :
  Forall (fun other => Git.Name other <> name) remotes ->
  Git.resolveFirst URL name value remotes = remotes.
Proof.
  intros Hremotes.
  induction Hremotes as [|other remotes Hother _ IH]; [reflexivity|].
  cbn [Git.resolveFirst].
  apply String.eqb_neq in Hother. rewrite Hother, IH. reflexivity.
Qed.

(** X14. A configuration line [remote.<a>.<rest> <value>], where [a] holds no
    dot and the key no blank, gives its value to the first remote named [a]
    and to no other: that remote comes out with [Resolved] equal to the
    value and its name and URLs as they were, the remotes before and after
    it are untouched, and when no remote is named [a] nothing changes. For
    the key [remote.origin.gh-resolved] that is the remote [origin]; for a
    remote whose name holds a dot, such as [my.fork], the line resolves the
    remote [my] instead. *)
Theorem resolveStep_resolves_first_component
    (URL : Type) (remotes : list (Git.Remote URL)) (a rest value : string) :
  Strings.hasByte "." a = false ->
  Strings.hasByte " " a = false ->
  Strings.hasByte " " rest = false ->
  let resolved :=
    Git.resolveStep URL remotes
      (("remote." ++ a ++ String "." rest) ++ String " " value) in
  (forall before r after,
      remotes = (before ++ r :: after)%list ->
      Forall (fun other => Git.Name other <> a) before ->
      Git.Name r = a ->
      resolved
      = (before
         ++ {| Git.Name := a; Git.Resolved := value;
               Git.FetchURL := Git.FetchURL r; Git.PushURL := Git.PushURL r |}
         :: after)%list)
  /\ (Forall (fun other => Git.Name other <> a) remotes -> resolved = remotes).
Proof.
  intros Hdot Hblank Hrest resolved.
  assert (Hstep : resolved = Git.resolveFirst URL a value remotes).
  { exact (resolveStep_first_component URL remotes a rest value Hdot Hblank Hrest). }
  split.
  - intros before r after -> Hbefore Hr.
    rewrite Hstep, (resolveFirst_found a value before r after Hbefore Hr).
    unfold Git.setResolved. rewrite Hr. reflexivity.
  - intros Habsent. rewrite Hstep. now apply resolveFirst_absent.
Qed.

(** The line written for the remote [origin], and the line written for a
    remote named [my.fork], which reaches the remote [my]. *)
Lemma resolveStep_resolves_first_component_witness :
  let remote := fun name resolved =>
    {| Git.Name := name; Git.Resolved := resolved;
       Git.FetchURL := @None unit; Git.PushURL := @None unit |} in
  let remotes :=
    [remote "origin" EmptyString; remote "my" EmptyString;
     remote "my.fork" EmptyString] in
  Git.resolveStep unit remotes "remote.origin.gh-resolved base"
  = [remote "origin" "base"; remote "my" EmptyString; remote "my.fork" EmptyString]
  /\ Git.resolveStep unit remotes "remote.my.fork.gh-resolved base"
     = [remote "origin" EmptyString; remote "my" "base"; remote "my.fork" EmptyString].
Proof.
  cbv zeta.
  pose (remote := fun name resolved =>
    {| Git.Name := name; Git.Resolved := resolved;
       Git.FetchURL := @None unit; Git.PushURL := @None unit |}).
  pose (remotes :=
    [remote "origin" EmptyString; remote "my" EmptyString;
     remote "my.fork" EmptyString]).
  split.
  - refine (proj1 (resolveStep_resolves_first_component unit remotes
                     "origin" "gh-resolved" "base" eq_refl eq_refl eq_refl)
              [] (remote "origin" EmptyString)
              [remote "my" EmptyString; remote "my.fork" EmptyString]
              eq_refl _ eq_refl).
    constructor.
  - refine (proj1 (resolveStep_resolves_first_component unit remotes
                     "my" "fork.gh-resolved" "base" eq_refl eq_refl eq_refl)
              [remote "origin" EmptyString] (remote "my" EmptyString)
              [remote "my.fork" EmptyString]
              eq_refl _ eq_refl).
    repeat constructor. discriminate.
Defined.

(** * The reference help *)

Lemma hasByte_ReplaceAllByte_gone (s : string) (old : ascii) (new : string) :
  Strings.hasByte old new = false ->
  Strings.hasByte old (Strings.ReplaceAllByte s old new) = false.
Proof.
  intros Hnew. induction s as [|c s IH]; [reflexivity|].
  cbn [Strings.ReplaceAllByte]. destruct (Ascii.eqb c old) eqn:Hc.
  - now rewrite hasByte_app, Hnew, IH.
  - cbn [Strings.hasByte]. now rewrite Hc, IH.
Qed.

Lemma hasByte_ReplaceAllByte_kept (s : string) (c old : ascii) (new : string) :
  Strings.hasByte c s = false ->
  Strings.hasByte c new = false ->
  Strings.hasByte c (Strings.ReplaceAllByte s old new) = false.
Proof.
  intros Hs Hnew. induction s as [|d s IH]; [reflexivity|].
  cbn [Strings.hasByte] in Hs. apply orb_false_iff in Hs. destruct Hs as [Hd Hs].
  cbn [Strings.ReplaceAllByte]. destruct (Ascii.eqb d old).
  - now rewrite hasByte_app, Hnew, IH.
  - cbn [Strings.hasByte]. now rewrite Hd, IH.
Qed.

(** The heading text made of [Use] holds no angle bracket. *)
Lemma escaped_has_no_angle (use : string) :
  Root.hasAngle
    (Strings.ReplaceAllByte (Strings.ReplaceAllByte use "<" "&lt;") ">" "&gt;")
  = false.
Proof.
  unfold Root.hasAngle. apply orb_false_iff. split.
  - apply hasByte_ReplaceAllByte_kept; [|reflexivity].
    now apply hasByte_ReplaceAllByte_gone.
  - now apply hasByte_ReplaceAllByte_gone.
Qed.

Lemma hasAngle_app (a b : string) :
  Root.hasAngle (a ++ b) = Root.hasAngle a || Root.hasAngle b.
Proof.
  unfold Root.hasAngle. rewrite !hasByte_app.
  destruct (Strings.hasByte "<" a), (Strings.hasByte "<" b),
    (Strings.hasByte ">" a), (Strings.hasByte ">" b); reflexivity.
Qed.

Lemma hasByte_SplitByte (c sep : ascii) (s : string) :
  Strings.hasByte c s = false ->
  Forall (fun piece => Strings.hasByte c piece = false) (Strings.SplitByte s sep).
Proof.
  induction s as [|d s IH]; intros Hs; [repeat constructor|].
  cbn [Strings.hasByte] in Hs. apply orb_false_iff in Hs. destruct Hs as [Hd Hs].
  specialize (IH Hs). cbn [Strings.SplitByte]. destruct (Ascii.eqb d sep).
  - constructor; [reflexivity|exact IH].
  - destruct (Strings.SplitByte s sep) as [|piece pieces].
    + constructor; [cbn; now rewrite Hd|constructor].
    + inversion IH as [|x xs Hpiece Hpieces]; subst.
      constructor; [cbn [Strings.hasByte]; now rewrite Hd, Hpiece|exact Hpieces].
Qed.

Lemma usageLines_no_angle (usages : string) :
  Root.hasAngle usages = false ->
  Root.hasAngle (Root.usageLines (Strings.SplitByte usages "010")) = false.
Proof.
  unfold Root.hasAngle at 1. rewrite orb_false_iff. intros [Hlt Hgt].
  pose proof (hasByte_SplitByte "<" "010" usages Hlt) as Hl.
  pose proof (hasByte_SplitByte ">" "010" usages Hgt) as Hg.
  induction (Strings.SplitByte usages "010") as [|fu rest IH]; [reflexivity|].
  inversion Hl as [|x xs Hfl Hrl]; inversion Hg as [|y ys Hfg Hrg]; subst.
  cbn [Root.usageLines]. destruct (fu =? EmptyString)%string; [now apply IH|].
  rewrite !hasAngle_app, (IH Hrl Hrg).
  unfold Root.hasAngle at 1. rewrite Hfl, Hfg. reflexivity.
Qed.

(** X15. The reference text holds no raw angle bracket of a command's usage
    line: when no description and no flag usage of the commands shown holds
    an angle bracket, the text that [cmdRef] makes of a command tree holds
    none, at any depth, every [<] and [>] of the [Use] lines having been
    replaced. *)
Theorem cmdRef_escapes_usage_lines (cmd : Root.Command) :
  Root.plainTexts cmd = true ->
  forall lvl, Root.hasAngle (Root.cmdRef cmd lvl) = false.
Proof.
  revert cmd. fix IH 1.
  intros [use short hidden hasPersistentFlags hasFlags flagUsages
            persistentFlagUsages hasAvailableSubCommands subcommands] Hplain lvl.
  cbn [Root.cmdRef]. destruct hidden; [reflexivity|].
  cbn [Root.plainTexts orb] in Hplain.
  rewrite !andb_true_iff, !negb_true_iff in Hplain.
  destruct Hplain as [[[Hshort Hflags] Hpersistent] Hsubs].
  assert (Hrefs : forall depth,
    Root.hasAngle
      ((fix subcommandRefs (cs : list Root.Command) : string :=
          match cs with
          | [] => EmptyString
          | c :: rest => Root.cmdRef c depth ++ subcommandRefs rest
          end) subcommands) = false).
  { intros depth. induction subcommands as [|c rest IHrest]; [reflexivity|].
    cbn [forallb] in Hsubs. apply andb_true_iff in Hsubs. destruct Hsubs as [Hc Hrest].
    rewrite hasAngle_app, (IH c Hc depth), (IHrest Hrest). reflexivity. }
  assert (Hhead : Root.hasAngle
    (((if lvl >? 0 then "###" else "##") ++ " "
      ++ Strings.ReplaceAllByte (Strings.ReplaceAllByte use "<" "&lt;") ">" "&gt;"
      ++ Strings.newline ++ Strings.newline)
     ++ short ++ Strings.newline ++ Strings.newline) = false).
  { rewrite !hasAngle_app, escaped_has_no_angle, Hshort.
    destruct (lvl >? 0); reflexivity. }
  assert (Hflagged : Root.hasAngle
    (if hasPersistentFlags || hasFlags
     then (((if lvl >? 0 then "###" else "##") ++ " "
            ++ Strings.ReplaceAllByte (Strings.ReplaceAllByte use "<" "&lt;") ">" "&gt;"
            ++ Strings.newline ++ Strings.newline)
           ++ short ++ Strings.newline ++ Strings.newline)
          ++ Root.usageLines (Strings.SplitByte flagUsages "010")
          ++ Root.usageLines (Strings.SplitByte persistentFlagUsages "010")
          ++ Strings.newline
     else if hasAvailableSubCommands
          then (((if lvl >? 0 then "###" else "##") ++ " "
                 ++ Strings.ReplaceAllByte (Strings.ReplaceAllByte use "<" "&lt;") ">" "&gt;"
                 ++ Strings.newline ++ Strings.newline)
                ++ short ++ Strings.newline ++ Strings.newline)
               ++ Strings.newline
          else ((if lvl >? 0 then "###" else "##") ++ " "
                ++ Strings.ReplaceAllByte (Strings.ReplaceAllByte use "<" "&lt;") ">" "&gt;"
                ++ Strings.newline ++ Strings.newline)
               ++ short ++ Strings.newline ++ Strings.newline) = false).
  { destruct (hasPersistentFlags || hasFlags); [|destruct hasAvailableSubCommands].
    - rewrite hasAngle_app, Hhead, !hasAngle_app.
      rewrite (usageLines_no_angle _ Hflags), (usageLines_no_angle _ Hpersistent).
      reflexivity.
    - rewrite hasAngle_app, Hhead. reflexivity.
    - exact Hhead. }
  destruct subcommands as [|c rest].
  - rewrite !hasAngle_app, Hflagged. reflexivity.
  - rewrite hasAngle_app, Hflagged. exact (Hrefs (lvl + 1)).
Qed.

(** A leaf command whose usage line names an argument in angle brackets. *)
Lemma cmdRef_escapes_usage_lines_witness :
  let checkout :=
    Root.mkCommand "checkout <pr-number>" "Check out a pull request in git"
      false false false EmptyString EmptyString false [] in
  Root.plainTexts checkout = true
  /\ Root.hasAngle (Root.cmdRef checkout 1) = false
  /\ Root.cmdRef checkout 1
     = "### checkout &lt;pr-number&gt;" ++ Strings.newline ++ Strings.newline
       ++ "Check out a pull request in git" ++ Strings.newline ++ Strings.newline
       ++ Strings.newline.
Proof.
  cbv zeta. split; [reflexivity|]. split; [|reflexivity].
  exact (cmdRef_escapes_usage_lines
           (Root.mkCommand "checkout <pr-number>" "Check out a pull request in git"
              false false false EmptyString EmptyString false [])
           eq_refl 1).
Defined.

Lemma string_app_assoc (a b c : string) : (a ++ b) ++ c = a ++ b ++ c.
Proof. induction a as [|x a IH]; cbn; [reflexivity|now rewrite IH]. Qed.

Lemma string_app_empty (a : string) : a ++ EmptyString = a.
Proof. induction a as [|x a IH]; cbn; [reflexivity|now rewrite IH]. Qed.

Lemma endsWithBlankLine_after (a b : string) :
  Root.endsWithBlankLine b -> Root.endsWithBlankLine (a ++ b).
Proof.
  intros [body ->]. exists (a ++ body). now rewrite string_app_assoc.
Qed.

Lemma endsWithBlankLine_newline (a : string) :
  Root.endsWithBlankLine a -> Root.endsWithBlankLine (a ++ Strings.newline).
Proof.
  intros [body ->]. exists (body ++ Strings.newline).
  now rewrite !string_app_assoc.
Qed.

Lemma endsWithBlankLine_usageLines (lines : list string) :
  forall a, Root.endsWithBlankLine a ->
            Root.endsWithBlankLine (a ++ Root.usageLines lines).
Proof.
  induction lines as [|fu rest IH]; intros a Ha; cbn [Root.usageLines].
  - now rewrite string_app_empty.
  - destruct (fu =? EmptyString)%string; [now apply IH|].
    replace (a ++ fu ++ Strings.newline ++ Strings.newline ++ Root.usageLines rest)
      with ((a ++ fu ++ Strings.newline ++ Strings.newline) ++ Root.usageLines rest)
      by (now rewrite !string_app_assoc).
    apply IH. apply endsWithBlankLine_after. now exists fu.
Qed.

Lemma startsAsHeading_before (marker a b : string) :
  Root.startsAsHeading marker a -> Root.startsAsHeading marker (a ++ b).
Proof.
  intros [rest ->]. exists (rest ++ b). now rewrite !string_app_assoc.
Qed.

(** X16. The text that [cmdRef] makes of a command is empty when the command
    is hidden, whatever its subcommands; for a command that is shown it
    starts as a heading, with the marker [##] followed by a blank at the top
    level (a level that is not positive) and the marker [###] followed by a
    blank at every level below, however deep, and it ends with an empty line,
    so that the sections of the reference never run into one another. *)
Theorem cmdRef_sections (cmd : Root.Command) (lvl : Z) :
  match cmd with
  | Root.mkCommand _ _ hidden _ _ _ _ _ _ =>
      if hidden then Root.cmdRef cmd lvl = EmptyString
      else (lvl <= 0 -> Root.startsAsHeading "##" (Root.cmdRef cmd lvl))
           /\ (0 < lvl -> Root.startsAsHeading "###" (Root.cmdRef cmd lvl))
           /\ Root.endsWithBlankLine (Root.cmdRef cmd lvl)
  end.
Proof.
  revert cmd lvl. fix IH 1.
  intros [use short hidden hasPersistentFlags hasFlags flagUsages
            persistentFlagUsages hasAvailableSubCommands subcommands] lvl.
  cbn [Root.cmdRef]. destruct hidden; [reflexivity|].
  set (escaped := Strings.ReplaceAllByte (Strings.ReplaceAllByte use "<" "&lt;") ">" "&gt;").
  set (head := ((if lvl >? 0 then "###" else "##") ++ " " ++ escaped
                ++ Strings.newline ++ Strings.newline)
               ++ short ++ Strings.newline ++ Strings.newline).
  set (flagged :=
         if hasPersistentFlags || hasFlags
         then head ++ Root.usageLines (Strings.SplitByte flagUsages "010")
              ++ Root.usageLines (Strings.SplitByte persistentFlagUsages "010")
              ++ Strings.newline
         else if hasAvailableSubCommands then head ++ Strings.newline else head).
  set (marker := if lvl >? 0 then "###" else "##").
  assert (Hhead : Root.startsAsHeading marker head /\ Root.endsWithBlankLine head).
  { split.
    - unfold head.
      exists (escaped ++ Strings.newline ++ Strings.newline
              ++ short ++ Strings.newline ++ Strings.newline).
      now rewrite !string_app_assoc.
    - unfold head. apply endsWithBlankLine_after. now exists short. }
  assert (Hflagged : Root.startsAsHeading marker flagged
                     /\ Root.endsWithBlankLine flagged).
  { destruct Hhead as [Hs He]. unfold flagged.
    destruct (hasPersistentFlags || hasFlags); [|destruct hasAvailableSubCommands].
    - split; [now apply startsAsHeading_before|].
      rewrite <- !string_app_assoc. apply endsWithBlankLine_newline.
      apply endsWithBlankLine_usageLines. now apply endsWithBlankLine_usageLines.
    - split; [now apply startsAsHeading_before|now apply endsWithBlankLine_newline].
    - now split. }
  assert (Hrefs : forall a,
    Root.endsWithBlankLine a ->
    Root.endsWithBlankLine
      (a ++ (fix subcommandRefs (cs : list Root.Command) : string :=
               match cs with
               | [] => EmptyString
               | c :: rest => Root.cmdRef c (lvl + 1) ++ subcommandRefs rest
               end) subcommands)).
  { induction subcommands as [|c rest IHrest]; intros a Ha.
    - now rewrite string_app_empty.
    - rewrite <- string_app_assoc. apply IHrest.
      pose proof (IH c (lvl + 1)) as Hc.
      destruct c as [u sh [|] hp hf fu pfu av cs].
      + rewrite Hc. now rewrite string_app_empty.
      + apply endsWithBlankLine_after. exact (proj2 (proj2 Hc)). }
  destruct Hflagged as [Hs He].
  assert (Hstart : Root.startsAsHeading marker
    (match subcommands with
     | [] =>
         (flagged ++ (fix subcommandRefs (cs : list Root.Command) : string :=
                        match cs with
                        | [] => EmptyString
                        | c :: rest => Root.cmdRef c (lvl + 1) ++ subcommandRefs rest
                        end) subcommands) ++ Strings.newline
     | _ :: _ =>
         flagged ++ (fix subcommandRefs (cs : list Root.Command) : string :=
                       match cs with
                       | [] => EmptyString
                       | c :: rest => Root.cmdRef c (lvl + 1) ++ subcommandRefs rest
                       end) subcommands
     end)).
  { destruct subcommands as [|c rest].
    - now apply startsAsHeading_before, startsAsHeading_before.
    - now apply startsAsHeading_before. }
  split; [|split].
  - intros Hlvl. replace marker with "##" in Hstart; [exact Hstart|].
    unfold marker. replace (lvl >? 0) with false; [reflexivity|].
    symmetry. rewrite Z.gtb_ltb. apply Z.ltb_ge. exact Hlvl.
  - intros Hlvl. replace marker with "###" in Hstart; [exact Hstart|].
    unfold marker. replace (lvl >? 0) with true; [reflexivity|].
    symmetry. rewrite Z.gtb_ltb. apply Z.ltb_lt. exact Hlvl.
  - destruct subcommands as [|c rest].
    + apply endsWithBlankLine_newline. now apply Hrefs.
    + now apply Hrefs.
Qed.

(** * Checking out a pull request *)

Lemma runChecked_shape (env : Pr.Env) (commands : list (list string)) :
  forall done,
    (forall err, fst (Pr.runChecked env commands done) <> Pr.Returned (Some err))
    /\ exists k, snd (Pr.runChecked env commands done) = (done ++ firstn k commands)%list.
Proof.
  induction commands as [|command rest IH]; intros done; cbn [Pr.runChecked].
  - split; [discriminate|]. exists 0%nat. now rewrite app_nil_r.
  - destruct (Pr.gitRun env command) as [err|].
    + split; [discriminate|]. exists 1%nat. reflexivity.
    + destruct (IH (done ++ [command])%list) as [Hret [k Hk]].
      split; [exact Hret|]. exists (Datatypes.S k).
      rewrite Hk, <- app_assoc. reflexivity.
Qed.

(** X17. An error that [checkoutPr] returns is returned before any git
    command has run: when the number is no number, the pull request is not
    found, there is no local repository or no remote for the base, the
    repository is left as it was. In particular a text that [strconv.Atoi]
    does not read gives its error at once. *)
Theorem checkoutPr_errors_run_nothing (env : Pr.Env) (number : string) :
  (forall err,
      fst (Pr.checkoutPr env number) = Pr.Returned (Some err) ->
      snd (Pr.checkoutPr env number) = [])
  /\ (forall err,
        Atoi number = inr err ->
        Pr.checkoutPr env number = (Pr.Returned (Some err), [])).
Proof.
  split.
  - intros err. unfold Pr.checkoutPr.
    destruct (Atoi number) as [n|e]; [|reflexivity].
    destruct (Pr.lookupPullRequest env number) as [pullRequest|e]; [|reflexivity].
    destruct (Pr.LocalRepo env) as [RemoteForRepo|e]; [|reflexivity].
    destruct (RemoteForRepo (Pr.BaseRepo pullRequest)) as [baseRemote|e]; [|reflexivity].
    intros Hret. exfalso.
    exact (proj1 (runChecked_shape env _ []) err Hret).
  - intros err Herr. unfold Pr.checkoutPr. rewrite Herr. reflexivity.
Qed.

(** X18. Without a remote for the head repository, [checkoutPr] never fetches
    into or checks out a branch that has the name of the head repository's
    default branch: a pull request opened from a fork's default branch gets
    the local branch [<owner>-<branch>]. The commands run are the first ones
    of: the fetch of [refs/pull/<number>/head] from the base remote into that
    branch, its checkout, and the two settings of its configuration. *)
Theorem checkoutPr_spares_the_default_branch
    (env : Pr.Env) (number : string) (n : Z) (pullRequest : Pr.PullRequest)
    (RemoteForRepo : Pr.Repo -> string + error) (baseRemote : string)
    (headRepo : Pr.Repo) (err : error) :
  Atoi number = inl n ->
  Pr.lookupPullRequest env number = inl pullRequest ->
  Pr.LocalRepo env = inl RemoteForRepo ->
  RemoteForRepo (Pr.BaseRepo pullRequest) = inl baseRemote ->
  Pr.IsSameRepo pullRequest = false ->
  Pr.HeadRepo pullRequest = Some headRepo ->
  RemoteForRepo headRepo = inr err ->
  exists branch remote mergeRef k,
    branch <> Pr.DefaultBranch headRepo
    /\ (branch = Pr.HeadRef pullRequest
        \/ branch = Pr.OwnerLogin headRepo ++ "-" ++ Pr.HeadRef pullRequest)
    /\ snd (Pr.checkoutPr env number)
       = firstn k
           [["fetch"; baseRemote;
             ("refs/pull/" ++ Itoa (Pr.PrNumber pullRequest) ++ "/head") ++ ":" ++ branch];
            ["checkout"; branch];
            ["config"; "branch." ++ branch ++ ".remote"; remote];
            ["config"; "branch." ++ branch ++ ".merge"; mergeRef]].
Proof.
  intros Hnumber Hlookup Hlocal Hbase Hsame Hhead Hnone.
  exists (Pr.newBranchNameWithoutRemote pullRequest).
  unfold Pr.checkoutPr. rewrite Hnumber, Hlookup, Hlocal, Hbase, Hsame, Hhead, Hnone.
  unfold Pr.checkoutCommands. rewrite Hhead.
  assert (Hbranch :
    Pr.newBranchNameWithoutRemote pullRequest <> Pr.DefaultBranch headRepo
    /\ (Pr.newBranchNameWithoutRemote pullRequest = Pr.HeadRef pullRequest
        \/ Pr.newBranchNameWithoutRemote pullRequest
           = Pr.OwnerLogin headRepo ++ "-" ++ Pr.HeadRef pullRequest)).
  { unfold Pr.newBranchNameWithoutRemote. rewrite Hhead.
    destruct (String.eqb_spec (Pr.HeadRef pullRequest) (Pr.DefaultBranch headRepo))
      as [Heq|Hne].
    - split; [|now right]. rewrite <- Heq. intros Hlen.
      apply (f_equal String.length) in Hlen.
      rewrite string_length_app in Hlen. cbn [String.length append] in Hlen. lia.
    - split; [exact Hne|now left]. }
  destruct (Pr.MaintainerCanModify pullRequest);
    match goal with
    | |- context [Pr.runChecked env ?commands []] =>
        destruct (runChecked_shape env commands []) as [_ [k Hk]]
    end;
    do 2 eexists; exists k; (split; [exact (proj1 Hbranch)|]);
    (split; [exact (proj2 Hbranch)|]); rewrite Hk; reflexivity.
Qed.

(** The pull request of a fork, opened from its branch [master]. *)
Lemma checkoutPr_spares_the_default_branch_witness :
  Atoi "42" = inl 42
  /\ snd (Pr.checkoutPr Pr.forkEnv "42")
     = [["fetch"; "origin"; "refs/pull/42/head:monalisa-master"];
        ["checkout"; "monalisa-master"];
        ["config"; "branch.monalisa-master.remote"; "origin"];
        ["config"; "branch.monalisa-master.merge"; "refs/pull/42/head"]].
Proof.
  split; [reflexivity|].
  destruct (checkoutPr_spares_the_default_branch Pr.forkEnv "42" 42
              Pr.forkPullRequest
              (fun repo =>
                 if (Pr.OwnerLogin repo =? "github")%string then inl "origin"
                 else inr (errorString "could not find a git remote"))
              "origin" Pr.forkRepo (errorString "could not find a git remote")
              eq_refl eq_refl eq_refl eq_refl eq_refl eq_refl eq_refl)
    as (branch & remote & mergeRef & k & _ & _ & Hrun).
  reflexivity.
Defined.

(** * The check of the invoker tests *)

Lemma verifyCalls_passes (calls : list (list string)) :
  Rpc.verifyCalls calls = Rpc.Passed <->
  exists before activities after,
    calls = (before ++ (Rpc.connectedEventName :: activities) :: after)%list
    /\ Forall (fun call => call <> []) before.
Proof.
  split.
  - induction calls as [|call rest IH]; cbn [Rpc.verifyCalls]; [discriminate|].
    destruct call as [|first activities]; [discriminate|].
    destruct (String.eqb_spec first Rpc.connectedEventName) as [->|_].
    + intros _. exists [], activities, rest. split; [reflexivity|constructor].
    + intros Hrest. destruct (IH Hrest) as (before & acts & after & -> & Hbefore).
      exists ((first :: activities) :: before), acts, after.
      split; [reflexivity|]. constructor; [discriminate|exact Hbefore].
  - intros (before & activities & after & -> & Hbefore).
    induction Hbefore as [|call before Hcall _ IH]; cbn [app Rpc.verifyCalls].
    + reflexivity.
    + destruct call as [|first acts]; [now elim Hcall|].
      rewrite <- app_comm_cons. cbn [Rpc.verifyCalls].
      destruct (first =? Rpc.connectedEventName)%string; [reflexivity|exact IH].
Qed.

(** X19. The check that the tests make of the mock server passes exactly when
    some recorded request has [connected] as its first activity and every
    request recorded before it has at least one activity: only the first
    activity of a request is looked at, and a request without activities
    that comes earlier makes the check panic. *)
Theorem verifyNotifyCodespaceOfClientActivity_passes (srv : Rpc.mockServer) :
  Rpc.verifyNotifyCodespaceOfClientActivity srv = Rpc.Passed <->
  exists before activities after,
    Rpc.NotifyCodespaceOfClientActivityCalls srv
    = (before ++ (Rpc.connectedEventName :: activities) :: after)%list
    /\ Forall (fun call => call <> []) before.
Proof.
  unfold Rpc.verifyNotifyCodespaceOfClientActivity.
  destruct (Rpc.NotifyCodespaceOfClientActivityCalls srv) as [|call rest] eqn:Hcalls.
  - split; [discriminate|].
    intros (before & activities & after & H & _). now destruct before.
  - apply verifyCalls_passes.
Qed.
